(** * NonameEnv: the process-supervised protocol bridge

    A shallow embedding of [apps/core/headless/python/noname_env.py]:
    the gymnasium environment that owns a Node worker process, talks
    line-delimited JSON with it and repairs the shapes of what it
    receives.  The embedding follows the Python text method by method;
    the outside world (process spawning, pipes, the two drain threads)
    is an explicit script of outcomes consumed by the methods. *)

From Stdlib Require Import ZArith List Lia Floats.SpecFloat.
From stdpp Require Import base option list strings gmap.

Local Open Scope Z_scope.

(** ** Module constants (noname_env.py, lines 22-26) *)

Definition PMAX : nat := 8.
Definition HMAX : nat := 20.
Definition BMAX : nat := 30.
Definition ACTION_DIM : nat := (HMAX + PMAX + BMAX + 2)%nat.
Definition OBS_DIM : nat := (PMAX * 5 + HMAX * 3 + 2)%nat.

(** ** Python values

    What [json.loads] can return.  A Python [float] is an IEEE binary64
    and a [numpy.float32] an IEEE binary32; both are kept as
    [spec_float] values, rounded with the operations of [SpecFloat]. *)

Abbreviation pyfloat := spec_float (only parsing).
Abbreviation float32 := spec_float (only parsing).

#[warnings="-register-all"]
Inductive json : Type :=
| JNull
| JBool (b : bool)
| JInt (z : Z)
| JFloat (x : pyfloat)
| JStr (s : string)
| JArr (vs : list json)
| JObj (kvs : gmap string json).

(** The exceptions the methods can raise.  The module raises
    [RuntimeError] and [ValueError] with distinct messages; each message
    is a constructor here, with the data the f-string interpolates.
      - [NotRunning m]: [RuntimeError(m)] for the two "not running"
        messages (lines 144, 150, 199, 217);
      - [InvalidAction a]: [ValueError(f"action out of range: {a}")];
      - [Timeout tail]: [RuntimeError("Timeout waiting Node response...")]
        with the stderr tail;
      - [ProtocolError line tail]: [RuntimeError(f"Invalid JSON from
        Node: {line}...")] with the stderr tail;
      - [SnapshotUnavailable msg]: [RuntimeError(f"snapshot unavailable:
        {msg}")];
      - [LaunchUnavailable m]: the two [RuntimeError]s of [_build_cmd];
      - [OSError]: what [subprocess.Popen], a write to a broken pipe
        (the spec's WriteFailed) and [poll()]/[kill()] raise;
      - the rest are the interpreter's and numpy's own. *)
Inductive exn : Type :=
| NotRunning (m : string)
| InvalidAction (a : Z)
| Timeout (tail : list string)
| ProtocolError (line : string) (tail : list string)
| SnapshotUnavailable (msg : json)
| LaunchUnavailable (m : string)
| OSError
| TypeError
| ValueError
| OverflowError
| AttributeError.

Definition result (A : Type) : Type := exn + A.

Definition rbind {A B} (r : result A) (f : A -> result B) : result B :=
  match r with inl e => inl e | inr a => f a end.

Fixpoint rmap {A B} (f : A -> result B) (l : list A) : result (list B) :=
  match l with
  | [] => inr []
  | x :: l' => rbind (f x) (fun y => rbind (rmap f l') (fun ys => inr (y :: ys)))
  end.

(** ** Coercions of the interpreter and of numpy *)

Definition f64_prec : Z := 53.
Definition f64_emax : Z := 1024.
Definition f32_prec : Z := 24.
Definition f32_emax : Z := 128.

Definition float_zero : pyfloat := S754_zero false.
Definition float_one : pyfloat := SFone f64_prec f64_emax.
Definition f32_zero : float32 := S754_zero false.

(** [float(z)] for a Python [int]: round to nearest even,
    [OverflowError] when the integer is beyond the binary64 range. *)
Definition float_of_int (z : Z) : result pyfloat :=
  match binary_normalize f64_prec f64_emax z 0 false with
  | S754_infinity _ => inl OverflowError
  | x => inr x
  end.

(** The C cast from [double] to [float] numpy applies when it stores a
    Python float in a [float32] array. *)
Definition f32_of_float (x : pyfloat) : float32 :=
  match x with
  | S754_finite s m e => binary_normalize f32_prec f32_emax (cond_Zopp s (Zpos m)) e s
  | _ => x
  end.

Definition float_truthy (x : pyfloat) : bool :=
  match x with S754_zero _ => false | _ => true end.

(** [bool(v)]: Python truthiness. *)
Definition py_bool (v : json) : bool :=
  match v with
  | JNull => false
  | JBool b => b
  | JInt z => negb (z =? 0)
  | JFloat x => float_truthy x
  | JStr s => match s with EmptyString => false | String _ _ => true end
  | JArr vs => negb (Nat.eqb (length vs) 0)
  | JObj kvs => negb (Nat.eqb (size kvs) 0)
  end.

Section Coercions.

(** [float(s)] on a string, the interpreter's decimal parser. *)
Variable float_of_str : string -> option pyfloat.

(** [float(v)] *)
Definition py_float (v : json) : result pyfloat :=
  match v with
  | JBool b => inr (if b then float_one else float_zero)
  | JInt z => float_of_int z
  | JFloat x => inr x
  | JStr s => match float_of_str s with Some x => inr x | None => inl ValueError end
  | JNull | JArr _ | JObj _ => inl TypeError
  end.

(** What numpy stores in a [float32] array for one Python scalar:
    [None] becomes NaN, anything else goes through [float()] and the
    C cast. *)
Definition cast_f32 (v : json) : result float32 :=
  match v with
  | JNull => inr S754_nan
  | _ => rbind (py_float v) (fun x => inr (f32_of_float x))
  end.

(** What numpy stores in a [bool_] array for one Python scalar. *)
Definition cast_bool (v : json) : result bool := inr (py_bool v).

End Coercions.

(** ** numpy arrays

    An array is its shape and its elements in row-major order. *)

Record ndarray (A : Type) : Type := mk_ndarray { shape : list nat; data : list A }.
Arguments mk_ndarray {A} _ _.
Arguments shape {A} _.
Arguments data {A} _.

(** [a.size] *)
Definition size_of {A} (a : ndarray A) : nat := fold_right Nat.mul 1%nat (shape a).

(** [a.reshape(-1)] *)
Definition reshape_flat {A} (a : ndarray A) : list A := data a.

(** Shape discovery of [np.asarray] on nested lists: every list level
    is a dimension, the items of a level must agree on their shape, and
    anything that is not a list is a scalar.  [None] stands for the
    [ValueError] of an inhomogeneous shape.  (numpy's bound on the
    number of dimensions is not modelled.) *)
Fixpoint discover_shape (v : json) : option (list nat) :=
  match v with
  | JArr vs =>
      match vs with
      | [] => Some [0%nat]
      | v0 :: rest =>
          match discover_shape v0 with
          | None => None
          | Some s =>
              if forallb (fun w => bool_decide (discover_shape w = Some s)) rest
              then Some (length vs :: s) else None
          end
      end
  | _ => Some []
  end.

(** The scalars of a nested list, in row-major order. *)
Fixpoint leaves (v : json) : list json :=
  match v with
  | JArr vs => concat (map leaves vs)
  | _ => [v]
  end.

(** [np.asarray(v, dtype=...)], with the element cast of the dtype. *)
Definition asarray {A} (cast : json -> result A) (v : json) : result (ndarray A) :=
  match discover_shape v with
  | None => inl ValueError
  | Some sh => rbind (rmap cast (leaves v)) (fun xs => inr (mk_ndarray sh xs))
  end.

(** ** The shape repair of [_decode_step] (lines 164-169 and 171-176)

    The same text is written twice in the source, once per dtype; a
    one-dimensional array of the declared length is represented by the
    list of its elements. *)
Definition fix_shape {A} (N : nat) (zero : A) (a : ndarray A) : list A :=
  if bool_decide (shape a = [N]) then data a
  else
    let fixed := replicate N zero in
    let n := Nat.min N (size_of a) in
    if (0 <? n)%nat then take n (reshape_flat a) ++ drop n fixed
    else fixed.

(** ** The outside world

    Everything the methods cannot decide themselves is scripted: what
    [shutil.which] and [Path.exists] find, whether the next
    [subprocess.Popen] and the next write to the worker's stdin succeed,
    what the next [Queue.get] on the stdout queue yields (together with
    the lines the stderr drain thread has appended meanwhile), and what
    the next [poll()]/[kill()] does.  A script that runs out answers
    with the uneventful outcome.  [trace] records, oldest first, the
    calls that reach the worker. *)

Record Host : Type := mk_Host {
  which_pnpm : option string;      (* shutil.which("pnpm") *)
  loader_exists : bool;            (* loader.exists() *)
  loader_uri : string;             (* loader.as_uri() *)
  which_node : option string       (* shutil.which("node") *)
}.

Inductive poll_outcome : Type :=
| PollAlive      (* poll() is None and kill() returns *)
| PollExited     (* poll() returns an exit code *)
| PollRaises.    (* poll() or kill() raises *)

Inductive event : Type :=
| EvPopen (pid : nat) (argv : list string) (dbg : bool)
| EvWrite (pid : nat) (msg : gmap string json)
| EvGet (timeout_s : Z)
| EvKill (pid : nat).

Record World : Type := mk_World {
  host : Host;
  popen_script : list bool;
  write_script : list bool;
  queue_script : list (list string * option string);
  poll_script : list poll_outcome;
  trace : list event
}.

(** ** The environment object (the fields of [__init__], lines 44-63)

    [_stdout_queue] is filled by the drain thread only; its content is
    the [queue_script] of the world.  [_proc] holds the number of the
    spawn that created the handle. *)
Record Env : Type := mk_Env {
  mode : string;
  single_mode : string;
  seat : Z;
  base_seed : Z;
  debug : bool;
  _proc : option nat;
  _stderr_thread : option nat;
  _stderr_stop : bool;
  _stderr_tail : list string;
  _stdout_thread : option nat;
  _stdout_stop : bool;
  _last_mask : list bool;
  _episode_seed : Z
}.

Definition set_proc (p : option nat) (e : Env) : Env :=
  mk_Env (mode e) (single_mode e) (seat e) (base_seed e) (debug e) p
         (_stderr_thread e) (_stderr_stop e) (_stderr_tail e)
         (_stdout_thread e) (_stdout_stop e) (_last_mask e) (_episode_seed e).

Definition set_threads (t : option nat) (e : Env) : Env :=
  mk_Env (mode e) (single_mode e) (seat e) (base_seed e) (debug e) (_proc e)
         t (_stderr_stop e) (_stderr_tail e)
         t (_stdout_stop e) (_last_mask e) (_episode_seed e).

Definition set_stops (b : bool) (e : Env) : Env :=
  mk_Env (mode e) (single_mode e) (seat e) (base_seed e) (debug e) (_proc e)
         (_stderr_thread e) b (_stderr_tail e)
         (_stdout_thread e) b (_last_mask e) (_episode_seed e).

Definition set_stderr_tail (t : list string) (e : Env) : Env :=
  mk_Env (mode e) (single_mode e) (seat e) (base_seed e) (debug e) (_proc e)
         (_stderr_thread e) (_stderr_stop e) t
         (_stdout_thread e) (_stdout_stop e) (_last_mask e) (_episode_seed e).

Definition set_last_mask (m : list bool) (e : Env) : Env :=
  mk_Env (mode e) (single_mode e) (seat e) (base_seed e) (debug e) (_proc e)
         (_stderr_thread e) (_stderr_stop e) (_stderr_tail e)
         (_stdout_thread e) (_stdout_stop e) m (_episode_seed e).

Definition set_episode_seed (s : Z) (e : Env) : Env :=
  mk_Env (mode e) (single_mode e) (seat e) (base_seed e) (debug e) (_proc e)
         (_stderr_thread e) (_stderr_stop e) (_stderr_tail e)
         (_stdout_thread e) (_stdout_stop e) (_last_mask e) s.

Definition log (ev : event) (w : World) : World :=
  mk_World (host w) (popen_script w) (write_script w) (queue_script w)
           (poll_script w) (trace w ++ [ev]).

Definition next_popen (w : World) : bool * World :=
  (hd true (popen_script w),
   mk_World (host w) (tail (popen_script w)) (write_script w) (queue_script w)
            (poll_script w) (trace w)).

Definition next_write (w : World) : bool * World :=
  (hd true (write_script w),
   mk_World (host w) (popen_script w) (tail (write_script w)) (queue_script w)
            (poll_script w) (trace w)).

Definition next_get (w : World) : (list string * option string) * World :=
  (hd ([], None) (queue_script w),
   mk_World (host w) (popen_script w) (write_script w) (tail (queue_script w))
            (poll_script w) (trace w)).

Definition next_poll (w : World) : poll_outcome * World :=
  (hd PollAlive (poll_script w),
   mk_World (host w) (popen_script w) (write_script w) (queue_script w)
            (tail (poll_script w)) (trace w)).

(** Number of worker processes spawned so far. *)
Definition is_popen (ev : event) : bool :=
  match ev with EvPopen _ _ _ => true | _ => false end.

Definition spawns (w : World) : nat := length (List.filter is_popen (trace w)).

(** ** A state-and-exception monad for the methods

    A raised exception keeps the state reached when it was raised, as
    in Python. *)

Definition St : Type := Env * World.
Definition M (A : Type) : Type := St -> result A * St.

Definition ret {A} (a : A) : M A := fun s => (inr a, s).
Definition raise {A} (e : exn) : M A := fun s => (inl e, s).
Definition bind {A B} (m : M A) (k : A -> M B) : M B :=
  fun s => match m s with
           | (inl e, s') => (inl e, s')
           | (inr a, s') => k a s'
           end.
Definition gets {A} (f : Env -> A) : M A := fun s => (inr (f (fst s)), s).
Definition modify (f : Env -> Env) : M unit := fun s => (inr tt, (f (fst s), snd s)).
Definition world {A} (f : World -> A * World) : M A :=
  fun s => let (a, w) := f (snd s) in (inr a, (fst s, w)).
Definition emit (ev : event) : M unit := world (fun w => (tt, log ev w)).
Definition lift {A} (r : result A) : M A := fun s => (r, s).

(** [try: m except Exception: pass] *)
Definition try_pass (m : M unit) : M unit :=
  fun s => match m s with (_, s') => (inr tt, s') end.

#[global] Instance M_ret : MRet M := @ret.
#[global] Instance M_bind : MBind M := fun A B k m => bind m k.

(** The last [n] elements: a [deque(maxlen=n)] after appending. *)
Definition keep_last {A} (n : nat) (l : list A) : list A :=
  drop (length l - n)%nat l.

(** [json.loads] and [float(str)] belong to the interpreter. *)
Class Interp : Type := {
  json_loads : string -> option json;
  float_of_str : string -> option pyfloat
}.

(** ** The methods of [NonameEnv] *)

(** [__init__] (lines 32-63); [repo_root] only feeds the paths that
    [Host] resolves. *)
Definition __init__ (mode single_mode : string) (seat seed : Z) (debug : bool) : Env :=
  mk_Env mode single_mode seat seed debug
         None None false [] None false
         (replicate ACTION_DIM false) seed.

Definition closed_msg : string := "Environment is closed; call reset() first".
Definition not_running_msg : string := "Node process is not running".

(** [msg.get(key, default)]: only a dict has [get]. *)
Definition msg_get (msg : json) (key : string) (dflt : json) : result json :=
  match msg with
  | JObj kvs => inr (default dflt (kvs !! key))
  | _ => inl AttributeError
  end.

(** The command dicts written to the worker (lines 133-139, 203, 218). *)
Definition hello_cmd (seed : Z) (mode single_mode : string) (seat : Z) : gmap string json :=
  <["cmd" := JStr "hello"]> (<["seed" := JInt seed]> (<["mode" := JStr mode]>
  (<["single_mode" := JStr single_mode]> (<["seat" := JInt seat]> ∅)))).
Definition step_cmd (action_i : Z) : gmap string json :=
  <["cmd" := JStr "step"]> (<["action" := JInt action_i]> ∅).
Definition snapshot_cmd : gmap string json := <["cmd" := JStr "snapshot"]> ∅.

Section Methods.
Context `{Interp}.

(** [_build_cmd] (lines 65-94): the argv and whether
    NONAME_HEADLESS_DEBUG is set in the child's environment. *)
Definition _build_cmd : M (list string * bool) :=
  fun s =>
    let (e, w) := s in
    match which_pnpm (host w) with
    | Some pnpm => (inr ([pnpm; "tsx"; "headless/rl_server.ts"], debug e), s)
    | None =>
        if loader_exists (host w) then
          match which_node (host w) with
          | None => (inl (LaunchUnavailable "node is required but not found in PATH"), s)
          | Some node =>
              (inr ([node; "--import"; loader_uri (host w); "headless/rl_server.ts"],
                    debug e), s)
          end
        else (inl (LaunchUnavailable
                "Cannot launch rl_server: neither pnpm nor node_modules/tsx/dist/loader.mjs is available"), s)
    end.

(** [_write_json] (lines 142-146); stdin is always a pipe. *)
Definition _write_json (msg : gmap string json) : M unit :=
  p ← gets _proc;
  match p with
  | None => raise (NotRunning not_running_msg)
  | Some pid =>
      ok ← world next_write;
      if ok : bool then emit (EvWrite pid msg) else raise OSError
  end.

(** [_read_json] (lines 148-160).  The lines the stderr thread has
    drained by the time [get] returns are appended to the bounded
    deque first. *)
Definition _read_json (timeout_s : Z) : M json :=
  p ← gets _proc;
  match p with
  | None => raise (NotRunning not_running_msg)
  | Some _ =>
      emit (EvGet timeout_s);;
      '(errs, got) ← world next_get;
      modify (fun e => set_stderr_tail (keep_last 120 (_stderr_tail e ++ errs)) e);;
      tl ← gets _stderr_tail;
      match got with
      | None => raise (Timeout tl)
      | Some line =>
          match json_loads line with
          | None => raise (ProtocolError line tl)
          | Some v => mret v
          end
      end
  end.

(** [_start] (lines 112-140) *)
Definition _start (seed : Z) : M unit :=
  '(cmd, dbg) ← _build_cmd;
  ok ← world next_popen;
  if ok : bool then
    pid ← world (fun w => (spawns w, w));
    emit (EvPopen pid cmd dbg);;
    modify (set_proc (Some pid));;
    modify (set_stops false);;
    modify (set_stderr_tail []);;
    modify (set_threads (Some pid));;
    md ← gets mode;
    sm ← gets single_mode;
    st ← gets seat;
    let hello := hello_cmd seed md sm st in
    _write_json hello
  else raise OSError.

(** [_decode_step] (lines 162-180), field by field: the observation
    (lines 163-169), the mask (170-176), the reward (178) and the
    terminal flag (179). *)
Definition decode_obs (msg : json) : result (list float32) :=
  rbind (msg_get msg "obs" (JArr [])) (fun o =>
  rbind (asarray (cast_f32 float_of_str) o) (fun obs =>
  inr (fix_shape OBS_DIM f32_zero obs))).

Definition decode_mask (msg : json) : result (list bool) :=
  rbind (msg_get msg "mask" (JArr [])) (fun k =>
  rbind (asarray cast_bool k) (fun mask =>
  inr (fix_shape ACTION_DIM false mask))).

Definition decode_reward (msg : json) : result pyfloat :=
  rbind (msg_get msg "reward" (JFloat float_zero)) (py_float float_of_str).

Definition decode_done (msg : json) : result bool :=
  rbind (msg_get msg "done" (JBool false)) (fun d => inr (py_bool d)).

Definition _decode_step (msg : json) : M (list float32 * pyfloat * bool) :=
  obs ← lift (decode_obs msg);
  mask ← lift (decode_mask msg);
  modify (set_last_mask mask);;
  reward ← lift (decode_reward msg);
  done ← lift (decode_done msg);
  mret (obs, reward, done).

(** [close] (lines 225-237) *)
Definition close : M unit :=
  p ← gets _proc;
  match p with
  | Some pid =>
      try_pass (
        o ← world next_poll;
        match o with
        | PollAlive => emit (EvKill pid)
        | PollExited => mret tt
        | PollRaises => raise OSError
        end);;
      modify (set_proc None)
  | None => mret tt
  end;;
  modify (set_stops true);;
  modify (set_threads None).

(** [reset] (lines 182-195); [info] is its one entry, the mask. *)
Definition reset (seed : option Z) : M (list float32 * list bool) :=
  close;;
  bs ← gets base_seed;
  modify (set_episode_seed (match seed with None => bs | Some s => s end));;
  s ← gets _episode_seed;
  _start s;;
  msg ← _read_json 40;
  '(obs, _, done) ← _decode_step msg;
  info ← gets _last_mask;
  if done : bool then
    s ← gets _episode_seed;
    modify (set_episode_seed (s + 1));;
    close;;
    s ← gets _episode_seed;
    _start s;;
    msg ← _read_json 40;
    '(obs, _, _) ← _decode_step msg;
    info ← gets _last_mask;
    mret (obs, info)
  else mret (obs, info).

(** [step] (lines 197-210) *)
Definition step (action : Z) : M (list float32 * pyfloat * bool * bool * list bool) :=
  p ← gets _proc;
  match p with
  | None => raise (NotRunning closed_msg)
  | Some _ =>
      let action_i := action in
      if (action_i <? 0) || (Z.of_nat ACTION_DIM <=? action_i) then
        raise (InvalidAction action_i)
      else
        _write_json (step_cmd action_i);;
        msg ← _read_json 40;
        '(obs, reward, done) ← _decode_step msg;
        let terminated := done in
        let truncated := false in
        info ← gets _last_mask;
        (if done : bool then close else mret tt);;
        mret (obs, reward, terminated, truncated, info)
  end.

(** [action_masks] (lines 212-213) *)
Definition action_masks : M (list bool) := gets _last_mask.

(** [get_snapshot] (lines 215-223) *)
Definition get_snapshot : M (gmap string json) :=
  p ← gets _proc;
  match p with
  | None => raise (NotRunning closed_msg)
  | Some _ =>
      _write_json snapshot_cmd;;
      msg ← _read_json 10;
      snap ← lift (msg_get msg "snapshot" JNull);
      match snap with
      | JObj d => mret d
      | _ => raise (SnapshotUnavailable msg)
      end
  end.

End Methods.

(** ** Callers

    A caller is a sequence of method calls; an exception raised by one
    call is caught by the caller, the object keeps the state the call
    left. *)
Inductive call : Type :=
| CallReset (seed : option Z)
| CallStep (action : Z)
| CallActionMasks
| CallGetSnapshot
| CallClose.

Definition is_reset (c : call) : bool :=
  match c with CallReset _ => true | _ => false end.

Definition run_call `{Interp} (c : call) (s : St) : St :=
  match c with
  | CallReset seed => snd (reset seed s)
  | CallStep a => snd (step a s)
  | CallActionMasks => snd (action_masks s)
  | CallGetSnapshot => snd (get_snapshot s)
  | CallClose => snd (close s)
  end.

Definition run_calls `{Interp} (cs : list call) (s : St) : St :=
  fold_left (fun s c => run_call c s) cs s.

(** One whole reset attempt, as the spec words it: close the worker,
    take the seed, start a fresh worker with a [hello] carrying that
    seed, and decode its first response. *)
Definition reset_attempt `{Interp} (seed : Z) : M (list float32 * pyfloat * bool) :=
  close;;
  modify (set_episode_seed seed);;
  _start seed;;
  msg ← _read_json 40;
  _decode_step msg.

(** What [reset] hands back from an attempt: the observation and the
    mask the attempt stored. *)
Definition reset_result (r : result (list float32 * pyfloat * bool) * St)
  : result (list float32 * list bool) * St :=
  match r with
  | (inl e, s) => (inl e, s)
  | (inr (obs, _, _), s) => (inr (obs, _last_mask (fst s)), s)
  end.

(** What [close] leaves: no handle, stop flags set, no threads; and
    in the world, one [poll()] consumed and a kill logged when the
    handle was live and the process still ran. *)
Definition closed_env (e : Env) : Env :=
  set_threads None (set_stops true (set_proc None e)).

Definition close_world (p : option nat) (w : World) : World :=
  match p with
  | None => w
  | Some pid =>
      match hd PollAlive (poll_script w) with
      | PollAlive => log (EvKill pid) (snd (next_poll w))
      | _ => snd (next_poll w)
      end
  end.

(** Hoare-style pre/postconditions on the state, whatever the outcome. *)
Definition hoare {A} (P : St -> Prop) (m : M A) (Q : St -> Prop) : Prop :=
  forall s, P s -> Q (snd (m s)).

(** [m] spawns at most [n] workers. *)
Definition spawn_le {A} (n : nat) (m : M A) : Prop :=
  forall s, (spawns (snd (snd (m s))) <= spawns (snd s) + n)%nat.

(** The worker answers the next command with [msg]: the next write to
    its stdin succeeds and the next line on its stdout parses to [msg]. *)
Definition replies `{Interp} (w : World) (msg : json) : Prop :=
  hd true (write_script w) = true
  /\ exists errs line,
       hd ([], None) (queue_script w) = (errs, Some line)
       /\ json_loads line = Some msg.

(** [_build_cmd] finds a launcher and the next [Popen] succeeds. *)
Definition launches (w : World) : Prop :=
  (is_Some (which_pnpm (host w))
   \/ (loader_exists (host w) = true /\ is_Some (which_node (host w))))
  /\ hd true (popen_script w) = true.

(** A value numpy takes as one element: anything but a list. *)
Definition is_scalar (v : json) : bool :=
  match v with JArr _ => false | _ => true end.

(** The stored mask has the declared length. *)
Definition mask_ok (e : Env) : Prop := length (_last_mask e) = ACTION_DIM.

(** ** A table-driven interpreter and a scripted worker, for examples

    The stub worker of the spec's scenarios: its lines are looked up
    in a table instead of being parsed. *)

Definition table_loads (table : list (string * json)) (line : string) : option json :=
  snd <$> List.find (fun kv => String.eqb (fst kv) line) table.

Definition stub_line : string := "first".
Definition stub_kvs : gmap string json :=
  <["obs" := JArr [JInt 1; JInt 2; JInt 3]]>
  (<["mask" := JArr [JBool true; JBool false]]>
  (<["reward" := JInt 0]> (<["done" := JBool false]> ∅))).
Definition done_line : string := "done".
Definition done_kvs : gmap string json := <["done" := JBool true]> ∅.
Definition snap_line : string := "snap".
Definition snap_body : gmap string json := <["event" := JStr "turn"]> ∅.
Definition snap_kvs : gmap string json := <["snapshot" := JObj snap_body]> ∅.
Definition garbage_line : string := "{oops".

Definition stub_interp : Interp := {|
  json_loads := table_loads [(stub_line, JObj stub_kvs); (done_line, JObj done_kvs);
                             (snap_line, JObj snap_kvs)];
  float_of_str := fun _ => None
|}.

Definition stub_host : Host := mk_Host (Some "pnpm") false "file:///loader.mjs" None.
Definition stub_world (lines : list string) : World :=
  mk_World stub_host [] [] (map (fun l => ([], Some l)) lines) [] [].
Definition stub_env : Env := __init__ "single" "normal" 0 123 false.
Definition running_env : Env := set_proc (Some 0%nat) stub_env.

(** 1.0, 2.0 and 3.0 in binary32, as [cast_f32] yields them. *)
Definition stub_obs : list float32 :=
  [S754_finite false 8388608 (-23); S754_finite false 8388608 (-22);
   S754_finite false 12582912 (-22)].

(** ** The drain threads ([_drain_stderr], [_drain_stdout], lines 96-110)

    A thread's loop is run over the iterations it has made so far: for
    each one, whether it found the stop event set, and what [readline]
    returned (the empty string at end of stream). *)

Definition newline : Ascii.ascii := Ascii.ascii_of_nat 10.

(** [line.rstrip("\n")] *)
Fixpoint rstrip_newline (s : string) : string :=
  match s with
  | EmptyString => EmptyString
  | String c s' =>
      match rstrip_newline s' with
      | EmptyString => if Ascii.eqb c newline then EmptyString else String c EmptyString
      | r => String c r
      end
  end.

(** [d.append(x)] on a [deque(maxlen=maxlen)]: append, then drop the
    oldest element when the bound is exceeded. *)
Definition deque_append {A} (maxlen : nat) (d : list A) (x : A) : list A :=
  let d' := d ++ [x] in
  if (maxlen <? length d')%nat then tail d' else d'.

Fixpoint _drain_stderr (iters : list (bool * string)) (tl : list string) : list string :=
  match iters with
  | [] => tl
  | (stop, line) :: rest =>
      if stop : bool then tl
      else match line with
           | EmptyString => tl
           | _ => _drain_stderr rest (deque_append 120 tl (rstrip_newline line))
           end
  end.

Fixpoint _drain_stdout (iters : list (bool * string)) (queue : list string) : list string :=
  match iters with
  | [] => queue
  | (stop, line) :: rest =>
      if stop : bool then queue
      else match line with
           | EmptyString => queue
           | _ => _drain_stdout rest (queue ++ [rstrip_newline line])
           end
  end.

(** The lines a drain loop takes in: those before the first iteration
    that sees the stop event or the end of the stream. *)
Fixpoint lines_taken (iters : list (bool * string)) : list string :=
  match iters with
  | [] => []
  | (stop, line) :: rest =>
      if stop : bool then []
      else match line with
           | EmptyString => []
           | _ => line :: lines_taken rest
           end
  end.

(** Whether a string ends in a newline. *)
Fixpoint ends_with_newline (s : string) : bool :=
  match s with
  | EmptyString => false
  | String c EmptyString => Ascii.eqb c newline
  | String _ s' => ends_with_newline s'
  end.

(** ** The random-policy driver (smoke_random.py) *)

(** [np.flatnonzero(mask)] *)
Fixpoint flatnonzero_from (i : nat) (mask : list bool) : list nat :=
  match mask with
  | [] => []
  | b :: mask' => (if b then [i] else []) ++ flatnonzero_from (S i) mask'
  end.

Definition flatnonzero (mask : list bool) : list nat := flatnonzero_from 0 mask.

(** [pick_action] (lines 11-15).  [draw] is what the generator draws
    for [np.random.choice], taken as an index into [legal]. *)
Definition pick_action (draw : nat) (mask : list bool) : Z :=
  let legal := flatnonzero mask in
  if (0 <? length legal)%nat
  then Z.of_nat (nth (draw mod length legal) legal 0%nat)
  else Z.of_nat ACTION_DIM - 1.

(** The object right after [_start] has spawned worker [pid]. *)
Definition started_env (pid : nat) (e : Env) : Env :=
  set_threads (Some pid) (set_stderr_tail [] (set_stops false (set_proc (Some pid) e))).

(** What [close] logs: a kill of the held process when [poll()] says it
    still runs, nothing otherwise. *)
Definition kill_events (p : option nat) (w : World) : list event :=
  match p with
  | Some pid =>
      match hd PollAlive (poll_script w) with
      | PollAlive => [EvKill pid]
      | _ => []
      end
  | None => []
  end.

(** The host offers no launcher: no pnpm, and no loader or no node. *)
Definition no_launcher (h : Host) : Prop :=
  which_pnpm h = None /\ (loader_exists h = false \/ which_node h = None).

(** The stderr tail respects the bound of its deque. *)
Definition tail_ok (e : Env) : Prop := (length (_stderr_tail e) <= 120)%nat.


(** *** [main] (smoke_random.py, lines 18-67)

    The parsed arguments are a record ([--repo-root] only feeds the
    paths of [Host]); the generator seeded by [np.random.seed] is the
    list of its draws; what [print] writes is collected line by line
    and returned (the lines printed before an exception are not kept;
    the [:.3f] formatting of the reward is left to the reader of the
    record). *)

Record Args : Type := mk_Args {
  arg_episodes : Z;
  arg_max_steps : Z;
  arg_seed : Z;
  arg_mode : string;
  arg_single_mode : string;
  arg_seat : Z;
  arg_debug : bool;
  arg_show_snapshot : bool
}.

Inductive printed : Type :=
| PrintSnapshot (event me : json) (players : nat)
| PrintEpisode (ep steps : Z) (done : bool) (reward : pyfloat).

(** [len(v)] *)
Definition py_len (v : json) : result nat :=
  match v with
  | JStr s => inr (String.length s)
  | JArr vs => inr (length vs)
  | JObj kvs => inr (size kvs)
  | JNull | JBool _ | JInt _ | JFloat _ => inl TypeError
  end.

(** The arguments of the snapshot [print] (lines 53-61). *)
Definition snapshot_line (snap : gmap string json) : result printed :=
  let event := default JNull (snap !! "event") in
  let me := default JNull (snap !! "mePlayerId") in
  rbind (py_len (default (JArr []) (snap !! "players")))
        (fun n => inr (PrintSnapshot event me n)).

(** [try: m finally: fin] *)
Definition try_finally {A} (m : M A) (fin : M unit) : M A :=
  fun s =>
    let (r, s1) := m s in
    match fin s1 with
    | (inl e, s2) => (inl e, s2)
    | (inr _, s2) => (r, s2)
    end.

Section Driver.
Context `{Interp}.

(** The [while] loop of one episode (lines 46-64).  [fuel] is the
    number of iterations [steps < max_steps] still allows; a draw is
    consumed only when [pick_action] calls [np.random.choice]. *)
Fixpoint episode_steps (show : bool) (fuel : nat) (steps : Z) (total_reward : pyfloat)
    (info : list bool) (rng : list nat) (out : list printed)
  : M (Z * bool * pyfloat * list nat * list printed) :=
  match fuel with
  | O => mret (steps, false, total_reward, rng, out)
  | S fuel' =>
      let mask := info in
      let action := pick_action (hd 0%nat rng) mask in
      let rng := if (0 <? length (flatnonzero mask))%nat then tail rng else rng in
      '(_, reward, terminated, truncated, info) ← step action;
      out ← (if show && (steps =? 0)
             then snap ← get_snapshot;
                  line ← lift (snapshot_line snap);
                  mret (out ++ [line])
             else mret out);
      let total_reward := SFadd f64_prec f64_emax total_reward reward in
      let steps := steps + 1 in
      let done := terminated || truncated in
      if done then mret (steps, true, total_reward, rng, out)
      else episode_steps show fuel' steps total_reward info rng out
  end.

(** The [for ep in range(episodes)] loop (lines 41-65), from episode
    [ep] on, [n] episodes to go. *)
Fixpoint episodes_loop (args : Args) (n : nat) (ep : Z) (rng : list nat)
    (out : list printed) : M (list nat * list printed) :=
  match n with
  | O => mret (rng, out)
  | S n' =>
      '(_, info) ← reset (Some (arg_seed args + ep));
      '(steps, done, total_reward, rng, out) ←
        episode_steps (arg_show_snapshot args) (Z.to_nat (arg_max_steps args))
                      0 float_zero info rng out;
      episodes_loop args n' (ep + 1) rng (out ++ [PrintEpisode ep steps done total_reward])
  end.

(** [main]: what it printed, or what it raised, and the final state. *)
Definition main (args : Args) (rng : list nat) (w : World)
  : result (list printed) * St :=
  let env := __init__ (arg_mode args) (arg_single_mode args) (arg_seat args)
                      (arg_seed args) (arg_debug args) in
  try_finally
    (r ← episodes_loop args (Z.to_nat (arg_episodes args)) 0 rng []; mret (snd r))
    close (env, w).

End Driver.

(** Events of one kind in the trace, and a bound on what a computation
    adds to them. *)
Definition is_step_write (ev : event) : bool :=
  match ev with
  | EvWrite _ msg =>
      match msg !! "cmd" with
      | Some (JStr c) => String.eqb c "step"
      | _ => false
      end
  | _ => false
  end.

Definition count_events (f : event -> bool) (w : World) : nat :=
  length (List.filter f (trace w)).

Definition emits_le {A} (f : event -> bool) (n : nat) (m : M A) : Prop :=
  forall s, (count_events f (snd (snd (m s))) <= count_events f (snd s) + n)%nat.

(** Nothing [m] raises is the out-of-range error of [step]. *)
Definition no_invalid_action {A} (m : M A) : Prop :=
  forall s a, fst (m s) <> inl (InvalidAction a).

(** The exceptions the coercions of a response can raise. *)
Definition decode_exn (e : exn) : Prop :=
  e = TypeError \/ e = ValueError \/ e = OverflowError \/ e = AttributeError.

Definition is_mapping (v : json) : bool :=
  match v with JObj _ => true | _ => false end.

(** More stub lines and worlds for the examples. *)
Definition line_of (text : string) : string :=
  String.append text (String newline EmptyString).

Definition list_line : string := "list".
Definition bad_reward_line : string := "bad-reward".
Definition bad_reward_kvs : gmap string json :=
  <["mask" := JArr [JBool true]]> (<["reward" := JNull]> ∅).
Definition matrix_kvs : gmap string json :=
  <["obs" := JArr [JArr [JInt 1; JInt 2]; JArr [JInt 3; JInt 1]]]> ∅.
Definition ragged_kvs : gmap string json :=
  <["obs" := JArr [JArr [JInt 1; JInt 2]; JArr [JInt 3]]]> ∅.

Definition stub_interp2 : Interp := {|
  json_loads := table_loads [(list_line, JArr []); (bad_reward_line, JObj bad_reward_kvs)];
  float_of_str := fun _ => None
|}.

Definition bare_host : Host := mk_Host None true "file:///loader.mjs" None.
Definition bare_world : World := mk_World bare_host [] [] [] [] [].
Definition broken_pipe_world : World := mk_World stub_host [] [false] [] [] [].
Definition first_legal_mask : list bool := true :: replicate 59 false.

(** * Properties *)

(** ** Induction on JSON values through their lists *)

Section JsonInd.
Variable P : json -> Prop.
Hypothesis HNull : P JNull.
Hypothesis HBool : forall b, P (JBool b).
Hypothesis HInt : forall z, P (JInt z).
Hypothesis HFloat : forall x, P (JFloat x).
Hypothesis HStr : forall s, P (JStr s).
Hypothesis HArr : forall vs, Forall P vs -> P (JArr vs).
Hypothesis HObj : forall kvs, P (JObj kvs).

Fixpoint json_list_ind (v : json) : P v :=
  match v with
  | JNull => HNull
  | JBool b => HBool b
  | JInt z => HInt z
  | JFloat x => HFloat x
  | JStr s => HStr s
  | JArr vs =>
      HArr vs ((fix go (l : list json) : Forall P l :=
                  match l with
                  | [] => @List.Forall_nil _ P
                  | w :: l' => @List.Forall_cons _ P w l' (json_list_ind w) (go l')
                  end) vs)
  | JObj kvs => HObj kvs
  end.
End JsonInd.

(** ** Arrays built by [np.asarray] *)

Lemma rmap_length {A B} (f : A -> result B) l ys :
  rmap f l = inr ys -> length ys = length l.
Proof.
  revert ys. induction l as [|x l IH]; intros ys; simpl.
  - intros [= <-]. reflexivity.
  - destruct (f x) as [e|y]; simpl; [discriminate|].
    destruct (rmap f l) as [e|ys']; simpl; [discriminate|].
    intros [= <-]. simpl. f_equal. apply IH. reflexivity.
Qed.


Lemma rmap_total {A B} (f : A -> B) l :
  rmap (fun x => inr (f x)) l = inr (map f l).
Proof. induction l as [|x l IH]; simpl; [reflexivity|]. rewrite IH. reflexivity. Qed.

Lemma leaves_count v sh :
  discover_shape v = Some sh -> length (leaves v) = fold_right Nat.mul 1%nat sh.
Proof.
  revert sh. induction v as [| | | | |vs IH|] using json_list_ind; intros sh;
    try (simpl; intros [= <-]; reflexivity).
  destruct vs as [|v0 rest]; [simpl; intros [= <-]; reflexivity|].
  cbn [discover_shape].
  destruct (discover_shape v0) as [s|] eqn:H0; [|discriminate].
  destruct (forallb _ rest) eqn:Hall; [|discriminate].
  intros [= <-].
  assert (Hev : Forall (fun w => length (leaves w) = fold_right Nat.mul 1%nat s) (v0 :: rest)).
  { rewrite forallb_forall in Hall.
    apply Forall_forall. intros w Hw. rewrite Forall_forall in IH.
    apply IH; [exact Hw|].
    apply list_elem_of_In in Hw. destruct Hw as [<-|Hw]; [exact H0|].
    apply Hall in Hw. apply bool_decide_eq_true in Hw. exact Hw. }
  change (length (concat (map leaves (v0 :: rest)))
          = (length (v0 :: rest) * fold_right Nat.mul 1 s)%nat).
  clear IH H0 Hall. revert Hev. generalize (v0 :: rest). clear.
  induction 1 as [|w l Hw Hl IHl]; simpl; [reflexivity|].
  rewrite length_app, Hw, IHl. reflexivity.
Qed.

Lemma asarray_size {A} (cast : json -> result A) v a :
  asarray cast v = inr a -> length (data a) = size_of a.
Proof.
  unfold asarray, size_of. destruct (discover_shape v) as [sh|] eqn:Hsh; [|discriminate].
  destruct (rmap cast (leaves v)) as [e|xs] eqn:Hxs; simpl; [discriminate|].
  intros [= <-]. simpl. apply rmap_length in Hxs. rewrite Hxs. apply leaves_count, Hsh.
Qed.

Lemma flat_shape xs :
  forallb is_scalar xs = true ->
  discover_shape (JArr xs) = Some [length xs] /\ leaves (JArr xs) = xs.
Proof.
  intros Hs. rewrite forallb_forall in Hs.
  assert (Hsh : forall w, In w xs -> discover_shape w = Some []).
  { intros w Hw. apply Hs in Hw. destruct w; try reflexivity; discriminate. }
  assert (Hlv : forall w, In w xs -> leaves w = [w]).
  { intros w Hw. apply Hs in Hw. destruct w; try reflexivity; discriminate. }
  split.
  - destruct xs as [|v0 rest]; [reflexivity|]. cbn [discover_shape].
    rewrite (Hsh v0) by (left; reflexivity).
    replace (forallb _ rest) with true; [reflexivity|].
    symmetry. apply forallb_forall. intros w Hw. apply bool_decide_eq_true.
    apply Hsh. right. exact Hw.
  - cbn [leaves]. clear Hs Hsh. induction xs as [|w l IH]; [reflexivity|].
    simpl. rewrite (Hlv w) by (left; reflexivity). simpl. f_equal.
    apply IH. intros w' Hw'. apply Hlv. right. exact Hw'.
Qed.

(** ** The shape repair *)

Lemma fix_shape_closed {A} (N : nat) (zero : A) (a : ndarray A) :
  length (data a) = size_of a ->
  fix_shape N zero a = take N (data a) ++ replicate (N - length (data a)) zero.
Proof.
  intros Hsz. unfold fix_shape, reshape_flat. case_bool_decide as Hsh.
  - assert (length (data a) = N) as Hlen.
    { rewrite Hsz. unfold size_of. rewrite Hsh. simpl. lia. }
    rewrite take_ge by lia. rewrite Hlen, Nat.sub_diag. simpl. rewrite app_nil_r. reflexivity.
  - rewrite <- Hsz. destruct (0 <? Nat.min N (length (data a)))%nat eqn:Hn.
    + rewrite drop_replicate. f_equal.
      * destruct (Nat.le_ge_cases N (length (data a))).
        -- rewrite Nat.min_l by lia. reflexivity.
        -- rewrite Nat.min_r by lia. rewrite !take_ge by lia. reflexivity.
      * f_equal. lia.
    + apply Nat.ltb_ge in Hn.
      assert (N = 0 \/ length (data a) = 0)%nat as [->|H0] by lia.
      * reflexivity.
      * apply nil_length_inv in H0. rewrite H0. simpl. rewrite take_nil, Nat.sub_0_r. reflexivity.
Qed.

Lemma fix_shape_length {A} (N : nat) (zero : A) (a : ndarray A) :
  length (data a) = size_of a -> length (fix_shape N zero a) = N.
Proof.
  intros Hsz. rewrite fix_shape_closed by exact Hsz.
  rewrite length_app, length_take, length_replicate. lia.
Qed.

Lemma fix_shape_exact {A} (N : nat) (zero : A) (a : ndarray A) :
  length (data a) = size_of a -> length (data a) = N -> fix_shape N zero a = data a.
Proof.
  intros Hsz Hlen. rewrite fix_shape_closed by exact Hsz.
  rewrite take_ge by lia. rewrite Hlen, Nat.sub_diag. apply app_nil_r.
Qed.

Lemma padded_prefix {A} (N : nat) (zero : A) (ys : list A) i :
  (i < Nat.min (length ys) N)%nat ->
  (take N ys ++ replicate (N - length ys) zero) !! i = ys !! i.
Proof.
  intros Hi. rewrite lookup_app_l by (rewrite length_take; lia).
  apply lookup_take_lt. lia.
Qed.

Lemma padded_rest {A} (N : nat) (zero : A) (ys : list A) i :
  (Nat.min (length ys) N <= i < N)%nat ->
  (take N ys ++ replicate (N - length ys) zero) !! i = Some zero.
Proof.
  intros Hi. rewrite lookup_app_r by (rewrite length_take; lia).
  rewrite length_take. apply lookup_replicate. split; [reflexivity|]. lia.
Qed.

(** ** Decoding the observation and the mask *)

Section Decoding.
Context `{Interp}.



(** Python floats always have a float32 value. *)
Lemma floats_castable (fs : list pyfloat) :
  rmap (cast_f32 float_of_str) (map JFloat fs) = inr (map f32_of_float fs).
Proof. induction fs as [|f fs IH]; simpl; [reflexivity|]. rewrite IH. reflexivity. Qed.

(** The observation of any regularly nested value: the casts of its
    scalars in row-major order, cut or zero-padded to [OBS_DIM]. *)
Lemma decode_obs_flattened (kvs : gmap string json) (o : json) sh ys :
  kvs !! "obs" = Some o ->
  discover_shape o = Some sh ->
  rmap (cast_f32 float_of_str) (leaves o) = inr ys ->
  decode_obs (JObj kvs)
  = inr (take OBS_DIM ys ++ replicate (OBS_DIM - length ys) f32_zero).
Proof.
  intros Hk Hsh Hys. unfold decode_obs. simpl. rewrite Hk. simpl.
  destruct (asarray (cast_f32 float_of_str) o) as [e|a] eqn:Ha.
  - unfold asarray in Ha. rewrite Hsh, Hys in Ha. discriminate.
  - simpl. rewrite fix_shape_closed by (eapply asarray_size, Ha).
    unfold asarray in Ha. rewrite Hsh, Hys in Ha. simpl in Ha.
    injection Ha as <-. reflexivity.
Qed.

Lemma decode_mask_flattened (kvs : gmap string json) (k : json) sh :
  kvs !! "mask" = Some k ->
  discover_shape k = Some sh ->
  decode_mask (JObj kvs)
  = inr (take ACTION_DIM (map py_bool (leaves k))
         ++ replicate (ACTION_DIM - length (leaves k)) false).
Proof.
  intros Hk Hsh. unfold decode_mask. simpl. rewrite Hk. simpl.
  assert (Ha : asarray cast_bool k = inr (mk_ndarray sh (map py_bool (leaves k)))).
  { unfold asarray, cast_bool. rewrite Hsh, rmap_total. reflexivity. }
  rewrite Ha. simpl. rewrite fix_shape_closed by (eapply asarray_size, Ha).
  simpl. rewrite length_map. reflexivity.
Qed.

(** Whatever the message holds, a decoded mask has the declared
    length. *)
Lemma decode_mask_length msg m : decode_mask msg = inr m -> length m = ACTION_DIM.
Proof.
  unfold decode_mask. destruct (msg_get msg "mask" (JArr [])) as [e|k]; simpl; [discriminate|].
  destruct (asarray cast_bool k) as [e|a] eqn:Ha; simpl; [discriminate|].
  intros [= <-]. apply fix_shape_length. eapply asarray_size, Ha.
Qed.

Lemma decode_obs_length msg b : decode_obs msg = inr b -> length b = OBS_DIM.
Proof.
  unfold decode_obs. destruct (msg_get msg "obs" (JArr [])) as [e|o]; simpl; [discriminate|].
  destruct (asarray _ o) as [e|a] eqn:Ha; simpl; [discriminate|].
  intros [= <-]. apply fix_shape_length. eapply asarray_size, Ha.
Qed.


(** C3. A response whose [mask] is a sequence [xs] of scalars decodes
    to a boolean vector of exactly [ACTION_DIM] elements: element [i]
    of the copied prefix is the truthiness of [xs[i]], and every
    element beyond the prefix is false. *)
Theorem decode_mask_normalized (kvs : gmap string json) (xs : list json) :
  kvs !! "mask" = Some (JArr xs) ->
  forallb is_scalar xs = true ->
  exists m,
    decode_mask (JObj kvs) = inr m
    /\ length m = ACTION_DIM
    /\ (forall i x, (i < Nat.min (length xs) ACTION_DIM)%nat -> xs !! i = Some x ->
          m !! i = Some (py_bool x))
    /\ (forall i, (Nat.min (length xs) ACTION_DIM <= i < ACTION_DIM)%nat ->
          m !! i = Some false).
Proof.
  intros Hk Hs. destruct (flat_shape xs Hs) as [Hsh Hlv].
  eexists. split.
  { eapply decode_mask_flattened; [exact Hk|exact Hsh]. }
  rewrite Hlv. split; [|split].
  - rewrite length_app, length_take, length_replicate, length_map. lia.
  - intros i x Hi Hx.
    rewrite <- (length_map py_bool xs). rewrite padded_prefix by (rewrite length_map; lia).
    rewrite list_lookup_fmap, Hx. reflexivity.
  - intros i Hi. rewrite <- (length_map py_bool xs).
    apply padded_rest. rewrite length_map. lia.
Qed.

End Decoding.

(** ** Running the monad *)

Ltac run :=
  unfold mbind, M_bind, mret, M_ret, bind, ret, raise, gets, modify, world,
    emit, lift, try_pass in *; cbn [fst snd] in *.

Section Lifecycle.
Context `{Interp}.

Lemma gets_eq {A} (f : Env -> A) s : gets f s = (inr (f (fst s)), s).
Proof. reflexivity. Qed.

Lemma modify_eq f s : modify f s = (inr tt, (f (fst s), snd s)).
Proof. reflexivity. Qed.

(** [close] never raises, and says exactly what it leaves behind. *)
Lemma close_eq (e : Env) (w : World) :
  close (e, w) = (inr tt, (closed_env e, close_world (_proc e) w)).
Proof.
  unfold close, closed_env, close_world. run.
  destruct e as [md sm st bs dbg p t1 f1 tl t2 f2 mk sd].
  cbn [_proc]. destruct p as [pid|]; cbn; [|reflexivity].
  destruct (hd PollAlive (poll_script w)); reflexivity.
Qed.

Lemma close_closed s : _proc (fst (snd (close s))) = None.
Proof. destruct s as [e w]. rewrite close_eq. reflexivity. Qed.

(** C8. [close] succeeds from every state, leaves the environment
    closed, and a second [close] right after it changes nothing. *)
Theorem close_idempotent (s : St) :
  fst (close s) = inr tt
  /\ _proc (fst (snd (close s))) = None
  /\ close (snd (close s)) = (inr tt, snd (close s)).
Proof.
  destruct s as [e w]. rewrite !close_eq. cbn [fst snd].
  split; [reflexivity|]. split; [reflexivity|].
  rewrite close_eq. destruct e; reflexivity.
Qed.

(** C4. With a live worker handle, an action outside
    [0, ACTION_DIM) makes [step] raise the out-of-range error and
    leaves both the object and the world, trace included, as they
    were: nothing is written. *)
Theorem step_invalid_action (a : Z) (e : Env) (w : World) :
  is_Some (_proc e) ->
  a < 0 \/ Z.of_nat ACTION_DIM <= a ->
  step a (e, w) = (inl (InvalidAction a), (e, w)).
Proof.
  intros [pid Hp] Ha. unfold step. run. rewrite Hp.
  replace ((a <? 0) || (Z.of_nat ACTION_DIM <=? a)) with true; [reflexivity|].
  symmetry. apply orb_true_iff. destruct Ha; [left; apply Z.ltb_lt|right; apply Z.leb_le]; lia.
Qed.

(** *** The primitives, one successful step each *)

Lemma run_bind_ok {A B} (m : M A) (k : A -> M B) s a s' :
  m s = (inr a, s') -> (m ≫= k) s = k a s'.
Proof. intros Hm. unfold mbind, M_bind, bind. rewrite Hm. reflexivity. Qed.

Lemma run_bind_err {A B} (m : M A) (k : A -> M B) s e s' :
  m s = (inl e, s') -> (m ≫= k) s = (inl e, s').
Proof. intros Hm. unfold mbind, M_bind, bind. rewrite Hm. reflexivity. Qed.

Lemma write_json_ok msg e w pid :
  _proc e = Some pid -> hd true (write_script w) = true ->
  _write_json msg (e, w) = (inr tt, (e, log (EvWrite pid msg) (snd (next_write w)))).
Proof. intros Hp Hw. unfold _write_json. run. rewrite Hp. cbn. rewrite Hw. reflexivity. Qed.

Lemma read_json_ok t e w pid errs line v :
  _proc e = Some pid ->
  hd ([], None) (queue_script w) = (errs, Some line) ->
  json_loads line = Some v ->
  _read_json t (e, w)
  = (inr v, (set_stderr_tail (keep_last 120 (_stderr_tail e ++ errs)) e,
             snd (next_get (log (EvGet t) w)))).
Proof.
  intros Hp Hq Hj. unfold _read_json. run. rewrite Hp. cbn. rewrite Hq. cbn.
  rewrite Hj. reflexivity.
Qed.

Lemma read_json_bad t e w pid errs line :
  _proc e = Some pid ->
  hd ([], None) (queue_script w) = (errs, Some line) ->
  json_loads line = None ->
  _read_json t (e, w)
  = (inl (ProtocolError line (keep_last 120 (_stderr_tail e ++ errs))),
     (set_stderr_tail (keep_last 120 (_stderr_tail e ++ errs)) e,
      snd (next_get (log (EvGet t) w)))).
Proof.
  intros Hp Hq Hj. unfold _read_json. run. rewrite Hp. cbn. rewrite Hq. cbn.
  rewrite Hj. destruct e; reflexivity.
Qed.

Lemma decode_step_ok msg obs mask r d s :
  decode_obs msg = inr obs -> decode_mask msg = inr mask ->
  decode_reward msg = inr r -> decode_done msg = inr d ->
  _decode_step msg s = (inr (obs, r, d), (set_last_mask mask (fst s), snd s)).
Proof.
  intros Ho Hm Hr Hd. unfold _decode_step. run. rewrite Ho, Hm, Hr, Hd. reflexivity.
Qed.


(** *** Snapshots *)

Lemma get_snapshot_run e w pid msg :
  _proc e = Some pid -> replies w msg ->
  exists e' w',
    e' = set_stderr_tail (_stderr_tail e') e
    /\ trace w' = trace w ++ [EvWrite pid snapshot_cmd; EvGet 10]
    /\ get_snapshot (e, w)
       = match msg_get msg "snapshot" JNull with
         | inl x => (inl x, (e', w'))
         | inr (JObj d) => (inr d, (e', w'))
         | inr _ => (inl (SnapshotUnavailable msg), (e', w'))
         end.
Proof.
  intros Hp (Hw & errs & line & Hq & Hj).
  unfold get_snapshot.
  rewrite (run_bind_ok _ _ (e, w) (Some pid) (e, w)) by (unfold gets; cbn; rewrite Hp; reflexivity).
  erewrite run_bind_ok by (apply write_json_ok; eassumption).
  erewrite run_bind_ok by (eapply read_json_ok; eassumption).
  eexists _, _. split; [|split]; cycle 2.
  - run. destruct (msg_get msg "snapshot" JNull) as [x|[]]; reflexivity.
  - destruct e; reflexivity.
  - cbn. rewrite <- app_assoc. reflexivity.
Qed.

(** C7. With a live worker handle and a worker that answers with the
    mapping [kvs], [get_snapshot] writes the snapshot command and
    then: returns the [snapshot] field when it is a mapping, and
    raises the snapshot-unavailable error carrying the whole response
    when the field is absent or is anything but a mapping. *)
Theorem get_snapshot_spec (e : Env) (w : World) (pid : nat) (kvs : gmap string json) :
  _proc e = Some pid ->
  replies w (JObj kvs) ->
  trace (snd (snd (get_snapshot (e, w))))
    = trace w ++ [EvWrite pid snapshot_cmd; EvGet 10]
  /\ (forall d, kvs !! "snapshot" = Some (JObj d) ->
        fst (get_snapshot (e, w)) = inr d)
  /\ (kvs !! "snapshot" = None ->
        fst (get_snapshot (e, w)) = inl (SnapshotUnavailable (JObj kvs)))
  /\ (forall v, kvs !! "snapshot" = Some v -> (forall d, v <> JObj d) ->
        fst (get_snapshot (e, w)) = inl (SnapshotUnavailable (JObj kvs))).
Proof.
  intros Hp Hr. destruct (get_snapshot_run e w pid _ Hp Hr) as (e' & w' & _ & Ht & Hg).
  rewrite Hg. cbn [msg_get]. split; [|split; [|split]].
  - destruct (kvs !! "snapshot") as [[]|]; exact Ht.
  - intros d ->. reflexivity.
  - intros ->. reflexivity.
  - intros v -> Hv. destruct v; try reflexivity. destruct (Hv kvs0 eq_refl).
Qed.

(** [get_snapshot] touches no field of the object but the stderr
    tail that the drain thread fills. *)
Lemma get_snapshot_frame (s : St) :
  exists tl, fst (snd (get_snapshot s)) = set_stderr_tail tl (fst s).
Proof.
  destruct s as [e w]. exists (_stderr_tail (fst (snd (get_snapshot (e, w))))).
  unfold get_snapshot, _write_json, _read_json. run.
  destruct e as [md sm st bs dbg p t1 f1 tl t2 f2 mk sd]. cbn.
  destruct p as [pid|]; cbn; [|reflexivity].
  destruct (hd true (write_script w)); cbn; [|reflexivity].
  destruct (hd ([], None) (queue_script w)) as [errs [line|]]; cbn; [|reflexivity].
  destruct (json_loads line) as [v|]; cbn; [|reflexivity].
  destruct (msg_get v "snapshot" JNull) as [x|[]]; reflexivity.
Qed.

(** C9. A [get_snapshot] that returns leaves the stored mask, hence
    what [action_masks] answers, and the worker and episode fields
    ([_proc], the seed, the stop flags, the thread handles) as they
    were before the call. *)
Theorem get_snapshot_read_only (s s' : St) (d : gmap string json) :
  get_snapshot s = (inr d, s') ->
  _last_mask (fst s') = _last_mask (fst s)
  /\ fst (action_masks s') = fst (action_masks s)
  /\ _proc (fst s') = _proc (fst s)
  /\ _episode_seed (fst s') = _episode_seed (fst s)
  /\ _stderr_stop (fst s') = _stderr_stop (fst s)
  /\ _stdout_stop (fst s') = _stdout_stop (fst s)
  /\ _stderr_thread (fst s') = _stderr_thread (fst s)
  /\ _stdout_thread (fst s') = _stdout_thread (fst s).
Proof.
  intros Hg. destruct (get_snapshot_frame s) as [tl Hf]. rewrite Hg in Hf.
  cbn [fst snd] in Hf. unfold action_masks, gets. cbn [fst]. rewrite Hf.
  destruct (fst s). repeat split; reflexivity.
Qed.

(** *** Steps *)

Lemma step_closed a s :
  _proc (fst s) = None -> step a s = (inl (NotRunning closed_msg), s).
Proof. intros Hp. unfold step. run. rewrite Hp. reflexivity. Qed.

Lemma get_snapshot_closed s :
  _proc (fst s) = None -> get_snapshot s = (inl (NotRunning closed_msg), s).
Proof. intros Hp. unfold get_snapshot. run. rewrite Hp. reflexivity. Qed.

Lemma run_call_closed c s :
  is_reset c = false -> _proc (fst s) = None -> _proc (fst (run_call c s)) = None.
Proof.
  intros Hc Hp. destruct c as [seed|a| | |]; cbn [run_call]; try discriminate.
  - rewrite step_closed by exact Hp. exact Hp.
  - exact Hp.
  - rewrite get_snapshot_closed by exact Hp. exact Hp.
  - apply close_closed.
Qed.




End Lifecycle.

(** ** What the methods preserve *)

Section Frames.
Context `{Interp}.

Lemma hoare_bind {A B} P Q R (m : M A) (k : A -> M B) :
  hoare P m Q -> (forall a, hoare Q (k a) R) -> (forall s, Q s -> R s) ->
  hoare P (m ≫= k) R.
Proof.
  intros Hm Hk HQR s HP. unfold mbind, M_bind, bind.
  specialize (Hm s HP). destruct (m s) as [[e|a] s']; cbn [snd] in *.
  - apply HQR, Hm.
  - apply Hk, Hm.
Qed.

(** A property of the object alone that every setter but the listed
    ones keeps. *)
Variable P : Env -> Prop.
Let I : St -> Prop := fun s => P (fst s).

Lemma keeps_bind {A B} (m : M A) (k : A -> M B) :
  hoare I m I -> (forall a, hoare I (k a) I) -> hoare I (m ≫= k) I.
Proof. intros Hm Hk. eapply hoare_bind; eauto. Qed.

Lemma keeps_ret {A} (a : A) : hoare I (mret a) I.
Proof. intros s Hs. exact Hs. Qed.

Lemma keeps_raise {A} e : hoare I (raise e : M A) I.
Proof. intros s Hs. exact Hs. Qed.

Lemma keeps_gets {A} (f : Env -> A) : hoare I (gets f) I.
Proof. intros s Hs. exact Hs. Qed.

Lemma keeps_lift {A} (r : result A) : hoare I (lift r) I.
Proof. intros s Hs. exact Hs. Qed.

Lemma keeps_world {A} (f : World -> A * World) : hoare I (world f) I.
Proof. intros [e w] Hs. unfold world. cbn. destruct (f w). exact Hs. Qed.

Lemma keeps_emit ev : hoare I (emit ev) I.
Proof. apply keeps_world. Qed.

Lemma keeps_modify f : (forall e, P e -> P (f e)) -> hoare I (modify f) I.
Proof. intros Hf s Hs. apply Hf, Hs. Qed.

Lemma keeps_try m : hoare I m I -> hoare I (try_pass m) I.
Proof. intros Hm s Hs. unfold try_pass. specialize (Hm s Hs). destruct (m s). exact Hm. Qed.

Hypothesis P_proc : forall p e, P e -> P (set_proc p e).
Hypothesis P_threads : forall t e, P e -> P (set_threads t e).
Hypothesis P_stops : forall b e, P e -> P (set_stops b e).
Hypothesis P_tail : forall t e, P e -> P (set_stderr_tail t e).

Ltac keeps_with known :=
  repeat lazymatch goal with
    | |- hoare _ (_ ≫= _) _ => apply keeps_bind; [|intros ?]
    | |- hoare _ (mret _) _ => apply keeps_ret
    | |- hoare _ (raise _) _ => apply keeps_raise
    | |- hoare _ (gets _) _ => apply keeps_gets
    | |- hoare _ (lift _) _ => apply keeps_lift
    | |- hoare _ (world _) _ => apply keeps_world
    | |- hoare _ (emit _) _ => apply keeps_emit
    | |- hoare _ (try_pass _) _ => apply keeps_try
    | |- hoare _ (modify _) _ => apply keeps_modify; intros ? ?; solve [auto]
    | |- hoare _ (match ?x with _ => _ end) _ => destruct x
    | |- hoare _ (let _ := _ in _) _ => cbv zeta
    | |- hoare _ _ _ => known
    end.

Ltac keeps := keeps_with fail.

Lemma keeps_build_cmd : hoare I _build_cmd I.
Proof.
  intros [e w] Hs. unfold _build_cmd.
  destruct (which_pnpm (host w)); [exact Hs|].
  destruct (loader_exists (host w)); [|exact Hs].
  destruct (which_node (host w)); exact Hs.
Qed.

Lemma keeps_write_json msg : hoare I (_write_json msg) I.
Proof. unfold _write_json. keeps. Qed.

Lemma keeps_read_json t : hoare I (_read_json t) I.
Proof. unfold _read_json. keeps. Qed.

Lemma keeps_start seed : hoare I (_start seed) I.
Proof.
  unfold _start.
  keeps_with ltac:(idtac; lazymatch goal with
                   | |- hoare _ _build_cmd _ => apply keeps_build_cmd
                   | |- hoare _ (_write_json _) _ => apply keeps_write_json
                   end).
Qed.

Lemma keeps_close : hoare I close I.
Proof. unfold close. keeps. Qed.

Ltac keeps_methods :=
  idtac; lazymatch goal with
  | |- hoare _ close _ => apply keeps_close
  | |- hoare _ (_start _) _ => apply keeps_start
  | |- hoare _ (_write_json _) _ => apply keeps_write_json
  | |- hoare _ (_read_json _) _ => apply keeps_read_json
  | |- hoare _ (_decode_step _) _ => solve [auto]
  end.

Lemma keeps_get_snapshot : hoare I get_snapshot I.
Proof. unfold get_snapshot. keeps_with keeps_methods. Qed.

Lemma keeps_decode_step msg :
  (forall m e, P e -> P (set_last_mask m e)) -> hoare I (_decode_step msg) I.
Proof. intros P_mask. unfold _decode_step. keeps. Qed.

Lemma keeps_reset_attempt seed :
  (forall z e, P e -> P (set_episode_seed z e)) ->
  (forall msg, hoare I (_decode_step msg) I) ->
  hoare I (reset_attempt seed) I.
Proof. intros P_seed Hdec. unfold reset_attempt. keeps_with keeps_methods. Qed.

Lemma keeps_step a :
  (forall msg, hoare I (_decode_step msg) I) -> hoare I (step a) I.
Proof. intros Hdec. unfold step. keeps_with keeps_methods. Qed.

Lemma keeps_reset seed :
  (forall z e, P e -> P (set_episode_seed z e)) ->
  (forall msg, hoare I (_decode_step msg) I) ->
  hoare I (reset seed) I.
Proof. intros P_seed Hdec. unfold reset. keeps_with keeps_methods. Qed.

End Frames.

Section ResetRetry.
Context `{Interp}.

(** *** The episode seed *)

Lemma start_keeps_seed seed s :
  _episode_seed (fst (snd (_start seed s))) = _episode_seed (fst s).
Proof.
  apply (keeps_start (fun e => _episode_seed e = _episode_seed (fst s)));
    try (intros ? [] ?; assumption); reflexivity.
Qed.

Lemma read_json_keeps_seed t s :
  _episode_seed (fst (snd (_read_json t s))) = _episode_seed (fst s).
Proof.
  apply (keeps_read_json (fun e => _episode_seed e = _episode_seed (fst s)));
    try (intros ? [] ?; assumption); reflexivity.
Qed.

Lemma decode_step_keeps_seed msg s :
  _episode_seed (fst (snd (_decode_step msg s))) = _episode_seed (fst s).
Proof.
  apply (keeps_decode_step (fun e => _episode_seed e = _episode_seed (fst s)));
    try (intros ? [] ?; assumption); reflexivity.
Qed.

(** *** Counting spawns *)

Lemma spawns_log ev w :
  spawns (log ev w) = (spawns w + (if is_popen ev then 1 else 0))%nat.
Proof.
  unfold spawns, log. cbn [trace]. rewrite List.filter_app, length_app. cbn.
  destruct (is_popen ev); reflexivity.
Qed.

Lemma spawn_le_bind {A B} a b n (m : M A) (k : A -> M B) :
  spawn_le a m -> (forall x, spawn_le b (k x)) -> (a + b <= n)%nat ->
  spawn_le n (m ≫= k).
Proof.
  intros Hm Hk Hn s. unfold mbind, M_bind, bind.
  specialize (Hm s). destruct (m s) as [[e|x] s']; cbn [snd] in *; [lia|].
  specialize (Hk x s'). lia.
Qed.

Ltac count_spawns :=
  unfold spawns, log, close_world, next_poll, next_write, next_get, next_popen;
  cbn; rewrite ?List.filter_app, ?length_app; cbn; lia.

Lemma close_spawns : spawn_le 0 close.
Proof.
  intros [e w]. rewrite close_eq. cbn [snd].
  destruct (_proc e); [|count_spawns].
  unfold close_world. destruct (hd PollAlive (poll_script w)); count_spawns.
Qed.

Lemma write_json_spawns msg : spawn_le 0 (_write_json msg).
Proof.
  intros [e w]. unfold _write_json. run. destruct (_proc e); [|count_spawns].
  cbn. destruct (hd true (write_script w)); count_spawns.
Qed.

Lemma read_json_spawns t : spawn_le 0 (_read_json t).
Proof.
  intros [e w]. unfold _read_json. run. destruct (_proc e); [|count_spawns]. cbn.
  destruct (hd ([], None) (queue_script w)) as [errs [line|]]; cbn;
    [destruct (json_loads line)|]; count_spawns.
Qed.

Lemma decode_step_spawns msg : spawn_le 0 (_decode_step msg).
Proof.
  intros [e w]. unfold _decode_step. run.
  destruct (decode_obs msg); cbn; [lia|].
  destruct (decode_mask msg); cbn; [lia|].
  destruct (decode_reward msg); cbn; [lia|].
  destruct (decode_done msg); cbn; lia.
Qed.

Lemma start_spawns seed : spawn_le 1 (_start seed).
Proof.
  intros [e w]. unfold _start, _build_cmd, _write_json. run.
  destruct (which_pnpm (host w)); cbn.
  - destruct (hd true (popen_script w)); cbn; [|count_spawns].
    destruct (hd true (write_script w)); count_spawns.
  - destruct (loader_exists (host w)); cbn; [|lia].
    destruct (which_node (host w)); cbn; [|lia].
    destruct (hd true (popen_script w)); cbn; [|count_spawns].
    destruct (hd true (write_script w)); count_spawns.
Qed.

Lemma reset_attempt_spawns seed : spawn_le 1 (reset_attempt seed).
Proof.
  unfold reset_attempt.
  eapply (spawn_le_bind 0 1); [apply close_spawns| |lia]. intros _.
  eapply (spawn_le_bind 0 1); [intros s; cbn; lia| |lia]. intros _.
  eapply (spawn_le_bind 1 0); [apply start_spawns| |lia]. intros _.
  eapply (spawn_le_bind 0 0); [apply read_json_spawns| |lia]. intros msg.
  apply decode_step_spawns.
Qed.

(** *** One attempt, then at most one more *)

Lemma reset_unfold (seed : option Z) (s : St) :
  reset seed s
  = let seed0 := default (base_seed (fst s)) seed in
    match reset_attempt seed0 s with
    | (inr (obs, r, true), s1) => reset_result (reset_attempt (seed0 + 1) s1)
    | r1 => reset_result r1
    end.
Proof.
  destruct s as [e w]. unfold reset, reset_attempt, reset_result. run.
  rewrite !close_eq. cbn [fst snd].
  replace (match seed with Some s => s | None => base_seed (closed_env e) end)
    with (default (base_seed e) seed) by (destruct seed, e; reflexivity).
  set (seed0 := default (base_seed e) seed).
  replace (_episode_seed (set_episode_seed seed0 (closed_env e))) with seed0
    by (destruct e; reflexivity).
  destruct (_start seed0 _) as [[x|[]] [e1 w1]] eqn:Hs; [reflexivity|].
  destruct (_read_json 40 (e1, w1)) as [[x|msg] [e2 w2]] eqn:Hr; [reflexivity|].
  destruct (_decode_step msg (e2, w2)) as [[x|[[obs r] d]] [e3 w3]] eqn:Hd; [reflexivity|].
  cbn [fst snd]. destruct d; [|reflexivity].
  assert (Hseed : _episode_seed e3 = seed0).
  { pose proof (decode_step_keeps_seed msg (e2, w2)) as H3.
    pose proof (read_json_keeps_seed 40 (e1, w1)) as H2.
    pose proof (start_keeps_seed seed0 (set_episode_seed seed0 (closed_env e),
                                        close_world (_proc e) w)) as H1.
    rewrite Hd in H3. rewrite Hr in H2. rewrite Hs in H1. cbn [fst snd] in *.
    rewrite H3, H2, H1. destruct e; reflexivity. }
  rewrite !close_eq. cbn [fst snd]. rewrite Hseed.
  replace (closed_env (set_episode_seed (seed0 + 1) e3))
    with (set_episode_seed (seed0 + 1) (closed_env e3)) by (destruct e3; reflexivity).
  replace (_proc (set_episode_seed (seed0 + 1) e3)) with (_proc e3)
    by (destruct e3; reflexivity).
  replace (_episode_seed (set_episode_seed (seed0 + 1) (closed_env e3))) with (seed0 + 1)
    by (destruct e3; reflexivity).
  destruct (_start (seed0 + 1) _) as [[x|[]] [e4 w4]]; [reflexivity|].
  destruct (_read_json 40 (e4, w4)) as [[x|msg'] [e5 w5]]; [reflexivity|].
  destruct (_decode_step msg' (e5, w5)) as [[x|[[obs' r'] d']] [e6 w6]]; reflexivity.
Qed.

(** Whatever the worker does, [reset] spawns at most two workers. *)
Lemma reset_spawns seed : spawn_le 2 (reset seed).
Proof.
  intros s. rewrite reset_unfold. cbv zeta.
  pose proof (reset_attempt_spawns (default (base_seed (fst s)) seed) s) as H1.
  destruct (reset_attempt _ s) as [[x|[[obs r] d]] s1]; cbn [snd reset_result] in *; [lia|].
  destruct d; cbn [snd] in *; [|lia].
  pose proof (reset_attempt_spawns (default (base_seed (fst s)) seed + 1) s1) as H2.
  destruct (reset_attempt _ s1) as [[x|[[obs' r'] d']] s2]; cbn [snd reset_result] in *; lia.
Qed.


Lemma close_world_launches p w : launches w -> launches (close_world p w).
Proof.
  unfold launches, close_world. destruct p; [|tauto].
  destruct (hd PollAlive (poll_script w)); cbn; tauto.
Qed.

Lemma close_world_replies p w msg : replies w msg -> replies (close_world p w) msg.
Proof.
  unfold replies, close_world. destruct p; [|tauto].
  destruct (hd PollAlive (poll_script w)); cbn; tauto.
Qed.

Lemma close_world_spawns p w : spawns (close_world p w) = spawns w.
Proof.
  unfold close_world. destruct p; [|reflexivity].
  destruct (hd PollAlive (poll_script w)); unfold spawns, log; cbn;
    rewrite ?List.filter_app, ?length_app; cbn; lia.
Qed.



End ResetRetry.

(** ** Defaults and the stored mask *)

Section Defaults.
Context `{Interp}.

Lemma msg_get_absent kvs key dflt :
  kvs !! key = None -> msg_get (JObj kvs) key dflt = inr dflt.
Proof. intros Hk. simpl. rewrite Hk. reflexivity. Qed.

Lemma msg_get_insert kvs key v dflt :
  msg_get (JObj (<[key := v]> kvs)) key dflt = inr v.
Proof. simpl. rewrite lookup_insert_eq. reflexivity. Qed.

(** C6. In a decoded response an absent [obs] is decoded as the empty
    sequence would be, an absent [mask] likewise, an absent [reward]
    is 0.0 and an absent [done] is false; with all four absent
    [_decode_step] returns the all-zero observation, reward 0.0 and
    [done = false] and stores the all-false mask.  A line that
    [json.loads] rejects makes [_read_json] raise the invalid-JSON error
    carrying that very line (and the stderr tail). *)
Theorem response_defaults (kvs : gmap string json) :
  (kvs !! "obs" = None ->
     decode_obs (JObj kvs) = decode_obs (JObj (<["obs" := JArr []]> kvs)))
  /\ (kvs !! "mask" = None ->
     decode_mask (JObj kvs) = decode_mask (JObj (<["mask" := JArr []]> kvs)))
  /\ (kvs !! "reward" = None -> decode_reward (JObj kvs) = inr float_zero)
  /\ (kvs !! "done" = None -> decode_done (JObj kvs) = inr false)
  /\ (forall s,
        kvs !! "obs" = None -> kvs !! "mask" = None ->
        kvs !! "reward" = None -> kvs !! "done" = None ->
        _decode_step (JObj kvs) s
        = (inr (replicate OBS_DIM f32_zero, float_zero, false),
           (set_last_mask (replicate ACTION_DIM false) (fst s), snd s)))
  /\ (forall t e w pid errs line,
        _proc e = Some pid ->
        hd ([], None) (queue_script w) = (errs, Some line) ->
        json_loads line = None ->
        fst (_read_json t (e, w))
        = inl (ProtocolError line (keep_last 120 (_stderr_tail e ++ errs)))).
Proof.
  assert (Ho : kvs !! "obs" = None -> decode_obs (JObj kvs) = inr (replicate OBS_DIM f32_zero)).
  { intros Hk. unfold decode_obs. rewrite msg_get_absent by exact Hk. reflexivity. }
  assert (Hm : kvs !! "mask" = None ->
               decode_mask (JObj kvs) = inr (replicate ACTION_DIM false)).
  { intros Hk. unfold decode_mask. rewrite msg_get_absent by exact Hk. reflexivity. }
  assert (Hr : kvs !! "reward" = None -> decode_reward (JObj kvs) = inr float_zero).
  { intros Hk. unfold decode_reward. rewrite msg_get_absent by exact Hk. reflexivity. }
  assert (Hd : kvs !! "done" = None -> decode_done (JObj kvs) = inr false).
  { intros Hk. unfold decode_done. rewrite msg_get_absent by exact Hk. reflexivity. }
  split; [|split; [|split; [|split; [|split]]]].
  - intros Hk. unfold decode_obs. rewrite msg_get_absent by exact Hk.
    rewrite msg_get_insert. reflexivity.
  - intros Hk. unfold decode_mask. rewrite msg_get_absent by exact Hk.
    rewrite msg_get_insert. reflexivity.
  - exact Hr.
  - exact Hd.
  - intros s H1 H2 H3 H4. apply decode_step_ok; auto.
  - intros t e w pid errs line Hp Hq Hj.
    erewrite read_json_bad by eassumption. reflexivity.
Qed.

(** *** The stored mask *)

Lemma decode_step_mask_ok msg :
  hoare (fun s => mask_ok (fst s)) (_decode_step msg) (fun s => mask_ok (fst s)).
Proof.
  intros [e w] He. unfold _decode_step. run.
  destruct (decode_obs msg) as [x|obs]; cbn; [exact He|].
  destruct (decode_mask msg) as [x|mask] eqn:Hm; cbn; [exact He|].
  assert (Hlen : mask_ok (set_last_mask mask e)).
  { unfold mask_ok. destruct e; cbn. eapply decode_mask_length, Hm. }
  destruct (decode_reward msg); cbn; [exact Hlen|].
  destruct (decode_done msg); cbn; exact Hlen.
Qed.

Lemma run_call_mask_ok c s : mask_ok (fst s) -> mask_ok (fst (run_call c s)).
Proof.
  assert (P1 : forall p e, mask_ok e -> mask_ok (set_proc p e)) by (intros ? [] ?; assumption).
  assert (P2 : forall t e, mask_ok e -> mask_ok (set_threads t e)) by (intros ? [] ?; assumption).
  assert (P3 : forall b e, mask_ok e -> mask_ok (set_stops b e)) by (intros ? [] ?; assumption).
  assert (P4 : forall t e, mask_ok e -> mask_ok (set_stderr_tail t e))
    by (intros ? [] ?; assumption).
  assert (P5 : forall z e, mask_ok e -> mask_ok (set_episode_seed z e))
    by (intros ? [] ?; assumption).
  intros Hs. destruct c as [seed|a| | |]; cbn [run_call].
  - apply (keeps_reset mask_ok P1 P2 P3 P4 seed P5 decode_step_mask_ok s Hs).
  - apply (keeps_step mask_ok P1 P2 P3 P4 a decode_step_mask_ok s Hs).
  - exact Hs.
  - apply (keeps_get_snapshot mask_ok P4 s Hs).
  - apply (keeps_close mask_ok P1 P2 P3 s Hs).
Qed.

Lemma run_calls_mask_ok cs s : mask_ok (fst s) -> mask_ok (fst (run_calls cs s)).
Proof.
  revert s. induction cs as [|c cs IH]; intros s Hs; [exact Hs|].
  unfold run_calls. cbn [fold_left]. apply IH, run_call_mask_ok, Hs.
Qed.

Lemma run_calls_before_reset cs s :
  forallb (fun c => negb (is_reset c)) cs = true ->
  _proc (fst s) = None ->
  _last_mask (fst (run_calls cs s)) = _last_mask (fst s).
Proof.
  revert s. induction cs as [|c cs IH]; intros s Hcs Hp; [reflexivity|].
  cbn in Hcs. apply andb_true_iff in Hcs as [Hc Hcs]. apply negb_true_iff in Hc.
  unfold run_calls. cbn [fold_left].
  change (_last_mask (fst (run_calls cs (run_call c s))) = _last_mask (fst s)).
  rewrite IH; [|exact Hcs|apply run_call_closed; assumption].
  destruct c as [seed|a| | |]; cbn [run_call]; try discriminate.
  - rewrite step_closed by exact Hp. reflexivity.
  - reflexivity.
  - rewrite get_snapshot_closed by exact Hp. reflexivity.
  - destruct s as [e w]. rewrite close_eq. destruct e; reflexivity.
Qed.

Lemma step_info a s obs r t tr info s' :
  step a s = (inr (obs, r, t, tr, info), s') -> info = _last_mask (fst s').
Proof.
  unfold step. run. destruct (_proc (fst s)); [|discriminate].
  destruct ((a <? 0) || (Z.of_nat ACTION_DIM <=? a)); [discriminate|].
  destruct (_write_json (step_cmd a) s) as [[x|[]] s1]; [discriminate|].
  destruct (_read_json 40 s1) as [[x|msg] s2]; [discriminate|].
  destruct (_decode_step msg s2) as [[x|[[obs' r'] d]] [e3 w3]]; [discriminate|].
  cbn [fst snd]. destruct d.
  - rewrite close_eq. intros [= <- <- <- <- <- <-]. destruct e3; reflexivity.
  - intros [= <- <- <- <- <- <-]. reflexivity.
Qed.

Lemma reset_info seed s obs info s' :
  reset seed s = (inr (obs, info), s') -> info = _last_mask (fst s').
Proof.
  rewrite reset_unfold. cbv zeta.
  destruct (reset_attempt _ s) as [[x|[[obs1 r1] d1]] s1]; cbn [reset_result];
    [discriminate|].
  destruct d1.
  - destruct (reset_attempt _ s1) as [[x|[[obs2 r2] d2]] s2]; cbn [reset_result];
      [discriminate|]. intros [= <- <- <-]. reflexivity.
  - intros [= <- <- <-]. reflexivity.
Qed.

(** C10. From construction on, after any sequence of [reset], [step],
    [action_masks], [get_snapshot] and [close] calls (returning or
    raising), the stored mask has exactly [ACTION_DIM] elements; so
    have the answer of [action_masks] and the [info] mask of a
    returning [step] or [reset]; and as long as no [reset] was called,
    [action_masks] answers the all-false vector. *)
Theorem last_mask_invariant (md sm : string) (st sd : Z) (dbg : bool)
    (w : World) (cs : list call) :
  let s := run_calls cs (__init__ md sm st sd dbg, w) in
  length (_last_mask (fst s)) = ACTION_DIM
  /\ (exists m, fst (action_masks s) = inr m /\ length m = ACTION_DIM)
  /\ (forall a obs r t tr info s',
        step a s = (inr (obs, r, t, tr, info), s') -> length info = ACTION_DIM)
  /\ (forall seed obs info s',
        reset seed s = (inr (obs, info), s') -> length info = ACTION_DIM)
  /\ (forallb (fun c => negb (is_reset c)) cs = true ->
        fst (action_masks s) = inr (replicate ACTION_DIM false)).
Proof.
  intros s.
  assert (Hinit : mask_ok (__init__ md sm st sd dbg)) by apply length_replicate.
  assert (Hs : mask_ok (fst s)) by (apply run_calls_mask_ok; exact Hinit).
  split; [exact Hs|]. split; [|split; [|split]].
  - eexists. split; [reflexivity|exact Hs].
  - intros a obs r t tr info s' Hstep. rewrite (step_info _ _ _ _ _ _ _ _ Hstep).
    apply (run_call_mask_ok (CallStep a) s) in Hs. cbn [run_call] in Hs.
    rewrite Hstep in Hs. exact Hs.
  - intros seed obs info s' Hreset. rewrite (reset_info _ _ _ _ _ Hreset).
    apply (run_call_mask_ok (CallReset seed) s) in Hs. cbn [run_call] in Hs.
    rewrite Hreset in Hs. exact Hs.
  - intros Hcs. unfold action_masks, gets. cbn [fst]. subst s.
    rewrite run_calls_before_reset by (exact Hcs || reflexivity). reflexivity.
Qed.

End Defaults.

(** ** The scenarios of the spec, run on the stub worker *)

Section Scenarios.
#[local] Existing Instance stub_interp.

Example dims : OBS_DIM = 102%nat /\ ACTION_DIM = 60%nat.
Proof. split; reflexivity. Qed.

(** The stub worker answers [hello] with obs [1,2,3] and mask
    [true,false]: [reset] returns them padded to 102 and 60. *)
Example reset_stub_worker :
  fst (reset None (stub_env, stub_world [stub_line]))
  = inr (stub_obs ++ replicate 99 f32_zero, [true; false] ++ replicate 58 false).
Proof. vm_compute. reflexivity. Qed.

(** A first response with [done = true]: two workers, seeds 5 and 6. *)
Example reset_retry_trace :
  trace (snd (snd (reset (Some 5) (stub_env, stub_world [done_line; stub_line]))))
  = [EvPopen 0 ["pnpm"; "tsx"; "headless/rl_server.ts"] false;
     EvWrite 0 (hello_cmd 5 "single" "normal" 0);
     EvGet 40;
     EvKill 0;
     EvPopen 1 ["pnpm"; "tsx"; "headless/rl_server.ts"] false;
     EvWrite 1 (hello_cmd 6 "single" "normal" 0);
     EvGet 40].
Proof. vm_compute. reflexivity. Qed.


Lemma decode_mask_normalized_witness :
  stub_kvs !! "mask" = Some (JArr [JBool true; JBool false])
  /\ exists m,
       decode_mask (JObj stub_kvs) = inr m
       /\ length m = ACTION_DIM
       /\ m !! 0%nat = Some true
       /\ (forall i, (2 <= i < ACTION_DIM)%nat -> m !! i = Some false).
Proof.
  assert (Hk : stub_kvs !! "mask" = Some (JArr [JBool true; JBool false]))
    by (vm_compute; reflexivity).
  split; [exact Hk|].
  destruct (decode_mask_normalized stub_kvs _ Hk eq_refl) as (m & Hm & Hlen & Hpre & Hz).
  exists m. split; [exact Hm|]. split; [exact Hlen|]. split; [|exact Hz].
  apply (Hpre 0%nat (JBool true)); [vm_compute; lia|reflexivity].
Defined.

Lemma step_invalid_action_witness :
  step 60 (running_env, stub_world [stub_line])
  = (inl (InvalidAction 60), (running_env, stub_world [stub_line])).
Proof.
  apply step_invalid_action.
  - exists 0%nat. reflexivity.
  - right. vm_compute. discriminate.
Defined.



Lemma response_defaults_witness :
  _decode_step (JObj done_kvs) (stub_env, stub_world [])
  = (inr (replicate OBS_DIM f32_zero, float_zero, true),
     (set_last_mask (replicate ACTION_DIM false) stub_env, stub_world []))
  /\ fst (_read_json 40 (running_env, stub_world [garbage_line]))
     = inl (ProtocolError garbage_line []).
Proof.
  destruct (response_defaults done_kvs) as (_ & _ & _ & _ & _ & Hbad).
  split; [vm_compute; reflexivity|].
  apply (Hbad 40 running_env (stub_world [garbage_line]) 0%nat [] garbage_line);
    vm_compute; reflexivity.
Defined.

Lemma get_snapshot_spec_witness :
  fst (get_snapshot (running_env, stub_world [snap_line])) = inr snap_body
  /\ fst (get_snapshot (running_env, stub_world [done_line]))
     = inl (SnapshotUnavailable (JObj done_kvs)).
Proof.
  split.
  - apply (get_snapshot_spec running_env (stub_world [snap_line]) 0%nat snap_kvs).
    + reflexivity.
    + split; [reflexivity|]. exists [], snap_line. split; reflexivity.
    + vm_compute. reflexivity.
  - apply (get_snapshot_spec running_env (stub_world [done_line]) 0%nat done_kvs).
    + reflexivity.
    + split; [reflexivity|]. exists [], done_line. split; reflexivity.
    + vm_compute. reflexivity.
Defined.

Lemma get_snapshot_read_only_witness :
  let s := (running_env, stub_world [snap_line]) in
  _last_mask (fst (snd (get_snapshot s))) = _last_mask (fst s)
  /\ _proc (fst (snd (get_snapshot s))) = _proc (fst s).
Proof.
  cbv zeta.
  destruct (get_snapshot_read_only (running_env, stub_world [snap_line])
              (snd (get_snapshot (running_env, stub_world [snap_line]))) snap_body)
    as (Hm & _ & Hp & _).
  - vm_compute. reflexivity.
  - split; [exact Hm|exact Hp].
Defined.

End Scenarios.

(** * Further properties of the bridge and of its driver *)

(** ** The drain threads *)

Lemma keep_last_length {A} (n : nat) (l : list A) : (length (keep_last n l) <= n)%nat.
Proof. unfold keep_last. rewrite length_drop. lia. Qed.

Lemma keep_last_short {A} (n : nat) (l : list A) : (length l <= n)%nat -> keep_last n l = l.
Proof. intros Hl. unfold keep_last. replace (length l - n)%nat with 0%nat by lia. reflexivity. Qed.

Lemma deque_append_keep_last {A} (n : nat) (d : list A) (x : A) :
  (length d <= n)%nat -> deque_append n d x = keep_last n (d ++ [x]).
Proof.
  intros Hd. unfold deque_append, keep_last. rewrite length_app. cbn [length].
  destruct (n <? length d + 1)%nat eqn:Hn.
  - apply Nat.ltb_lt in Hn. replace (length d + 1 - n)%nat with 1%nat by lia.
    destruct (d ++ [x]); reflexivity.
  - apply Nat.ltb_ge in Hn. replace (length d + 1 - n)%nat with 0%nat by lia. reflexivity.
Qed.

Lemma keep_last_app {A} (n : nat) (l l' : list A) :
  keep_last n (keep_last n l ++ l') = keep_last n (l ++ l').
Proof.
  unfold keep_last. rewrite !length_app, length_drop.
  destruct (Nat.le_gt_cases (length l) n) as [Hle|Hgt].
  - replace (length l - n)%nat with 0%nat by lia. cbn [drop]. rewrite Nat.sub_0_r. reflexivity.
  - replace (length l - (length l - n) + length l' - n)%nat with (length l')%nat by lia.
    replace (length l + length l' - n)%nat with ((length l - n) + length l')%nat by lia.
    rewrite <- (drop_app_le l l' (length l - n)) by lia.
    rewrite drop_drop. reflexivity.
Qed.

Lemma rstrip_newline_nil_iff s :
  rstrip_newline s = EmptyString ->
  forall c s', s = String c s' -> c = newline /\ rstrip_newline s' = EmptyString.
Proof.
  intros Hs c s' ->. cbn [rstrip_newline] in Hs.
  destruct (rstrip_newline s') eqn:Hr; [|discriminate].
  destruct (Ascii.eqb c newline) eqn:Hc; [|discriminate].
  apply Ascii.eqb_eq in Hc. split; [exact Hc|reflexivity].
Qed.

(** X1. What [rstrip] leaves never ends in a newline, and a text that
    does not end in a newline comes back unchanged after a newline is
    appended to it and stripped again: the reader recovers exactly the
    line the writer terminated. *)
Theorem rstrip_newline_round_trip (s : string) :
  ends_with_newline (rstrip_newline s) = false
  /\ (ends_with_newline s = false ->
      rstrip_newline (String.append s (String newline EmptyString)) = s).
Proof.
  split.
  - induction s as [|c s IH]; [reflexivity|]. cbn [rstrip_newline].
    destruct (rstrip_newline s) as [|c' r] eqn:Hr.
    + destruct (Ascii.eqb c newline) eqn:Hc; [reflexivity|].
      cbn [ends_with_newline]. exact Hc.
    + cbn [ends_with_newline]. exact IH.
  - assert (Hcons : forall c s1 s2,
              String.append (String c s1) s2 = String c (String.append s1 s2))
      by reflexivity.
    assert (Hnil : forall s2, String.append EmptyString s2 = s2) by reflexivity.
    induction s as [|c s IH]; intros Hs.
    + rewrite Hnil. cbn [rstrip_newline]. rewrite Ascii.eqb_refl. reflexivity.
    + rewrite Hcons. cbn [rstrip_newline]. destruct s as [|c' s'].
      * rewrite Hnil. cbn [rstrip_newline ends_with_newline] in *.
        rewrite Ascii.eqb_refl, Hs. reflexivity.
      * rewrite IH by exact Hs. reflexivity.
Qed.

Lemma drain_stderr_keep_last iters tl :
  (length tl <= 120)%nat ->
  _drain_stderr iters tl = keep_last 120 (tl ++ map rstrip_newline (lines_taken iters)).
Proof.
  revert tl. induction iters as [|[stop line] rest IH]; intros tl Htl;
    cbn [_drain_stderr lines_taken].
  - cbn. rewrite app_nil_r, keep_last_short by exact Htl. reflexivity.
  - destruct stop; [cbn; rewrite app_nil_r, keep_last_short by exact Htl; reflexivity|].
    destruct line as [|c line'];
      [cbn; rewrite app_nil_r, keep_last_short by exact Htl; reflexivity|].
    rewrite deque_append_keep_last by exact Htl.
    rewrite IH by apply keep_last_length.
    rewrite keep_last_app. cbn [map]. rewrite <- app_assoc. reflexivity.
Qed.

(** X2. The stderr drain loop keeps the bounded deque equal to the
    last 120 of the lines it has taken in (each without its trailing
    newline), in order, so the tail never exceeds 120 lines; the loop
    takes nothing after the first iteration that sees the stop event or
    the end of the stream. *)
Theorem drain_stderr_tail (iters more : list (bool * string)) (tl : list string)
    (stop : bool) (line : string) :
  (length tl <= 120)%nat ->
  _drain_stderr iters tl = keep_last 120 (tl ++ map rstrip_newline (lines_taken iters))
  /\ (length (_drain_stderr iters tl) <= 120)%nat
  /\ (stop = true \/ line = EmptyString ->
      _drain_stderr (iters ++ (stop, line) :: more) tl = _drain_stderr iters tl).
Proof.
  intros Htl. split; [apply drain_stderr_keep_last, Htl|].
  split; [rewrite drain_stderr_keep_last by exact Htl; apply keep_last_length|].
  intros Hend. rewrite !drain_stderr_keep_last by exact Htl. do 3 f_equal.
  clear Htl. induction iters as [|[st ln] rest IH]; cbn.
  - destruct Hend as [->| ->]; [reflexivity|]. destruct stop; reflexivity.
  - destruct st; [reflexivity|]. destruct ln; [reflexivity|]. rewrite IH. reflexivity.
Qed.

(** X3. The stdout drain loop hands over every line it takes in, in
    order and without its trailing newline, behind what the queue
    already holds, and takes nothing after the first iteration that
    sees the stop event or the end of the stream. *)
Theorem drain_stdout_fifo (iters more : list (bool * string)) (queue : list string)
    (stop : bool) (line : string) :
  _drain_stdout iters queue = queue ++ map rstrip_newline (lines_taken iters)
  /\ (stop = true \/ line = EmptyString ->
      _drain_stdout (iters ++ (stop, line) :: more) queue = _drain_stdout iters queue).
Proof.
  assert (Hq : forall its q, _drain_stdout its q = q ++ map rstrip_newline (lines_taken its)).
  { induction its as [|[st ln] rest IH]; intros q; cbn [_drain_stdout lines_taken].
    - cbn. rewrite app_nil_r. reflexivity.
    - destruct st; [cbn; rewrite app_nil_r; reflexivity|].
      destruct ln; [cbn; rewrite app_nil_r; reflexivity|].
      rewrite IH. cbn [map]. rewrite <- app_assoc. reflexivity. }
  split; [apply Hq|]. intros Hend. rewrite !Hq. do 2 f_equal.
  induction iters as [|[st ln] rest IH]; cbn.
  - destruct Hend as [->| ->]; [reflexivity|]. destruct stop; reflexivity.
  - destruct st; [reflexivity|]. destruct ln; [reflexivity|]. rewrite IH. reflexivity.
Qed.

(** ** The random policy *)

Lemma flatnonzero_from_spec i mask x :
  In x (flatnonzero_from i mask) ->
  (i <= x < i + length mask)%nat /\ mask !! (x - i)%nat = Some true.
Proof.
  revert i. induction mask as [|b mask IH]; intros i; cbn [flatnonzero_from]; [intros []|].
  intros Hx. apply in_app_or in Hx. destruct Hx as [Hx|Hx].
  - destruct b; [|destruct Hx]. destruct Hx as [<-|[]].
    cbn [length]. split; [lia|]. rewrite Nat.sub_diag. reflexivity.
  - apply IH in Hx. destruct Hx as [Hr Hm]. cbn [length]. split; [lia|].
    replace (x - i)%nat with (S (x - S i)) by lia. exact Hm.
Qed.

Lemma flatnonzero_from_nil i mask :
  flatnonzero_from i mask = [] -> forall j, mask !! j <> Some true.
Proof.
  revert i. induction mask as [|b mask IH]; intros i; cbn [flatnonzero_from]; intros Hn j.
  - rewrite lookup_nil. discriminate.
  - apply app_eq_nil in Hn. destruct Hn as [Hb Hm]. destruct b; [discriminate|].
    destruct j as [|j]; cbn; [discriminate|]. eapply IH, Hm.
Qed.

(** X4. On a mask of [ACTION_DIM] elements [pick_action] always
    returns an action in [0, ACTION_DIM); the action is a legal one
    (its mask entry is true) whenever the mask has a true entry, and is
    the last action, [ACTION_DIM - 1], when it has none. *)
Theorem pick_action_valid (draw : nat) (mask : list bool) :
  length mask = ACTION_DIM ->
  0 <= pick_action draw mask < Z.of_nat ACTION_DIM
  /\ ((exists j, mask !! j = Some true) ->
      mask !! Z.to_nat (pick_action draw mask) = Some true)
  /\ ((forall j, mask !! j <> Some true) ->
      pick_action draw mask = Z.of_nat ACTION_DIM - 1).
Proof.
  intros Hlen. unfold pick_action, flatnonzero.
  destruct (flatnonzero_from 0 mask) as [|x0 legal] eqn:Hl.
  - cbn [length Nat.ltb Nat.leb]. split; [cbn; lia|]. split; [|reflexivity].
    intros [j Hj]. destruct (flatnonzero_from_nil 0 mask Hl j Hj).
  - set (l := x0 :: legal) in *.
    assert (Hpos : (0 < length l)%nat) by (cbn; lia).
    replace (0 <? length l)%nat with true by (symmetry; apply Nat.ltb_lt, Hpos).
    assert (Hin : In (nth (draw mod length l) l 0%nat) l).
    { apply nth_In. apply Nat.mod_upper_bound. lia. }
    set (x := nth (draw mod length l) l 0%nat) in *.
    assert (Hin' : In x (flatnonzero_from 0 mask)) by (rewrite Hl; exact Hin).
    apply flatnonzero_from_spec in Hin'. destruct Hin' as [Hr Hm].
    rewrite Nat.sub_0_r in Hm. rewrite Hlen in Hr.
    split; [lia|]. split.
    + intros _. rewrite Nat2Z.id. exact Hm.
    + intros Hnone. destruct (Hnone _ Hm).
Qed.

(** ** Launching, resetting *)

Section Launch.
Context `{Interp}.

(** X5. [_build_cmd] never changes the state; it takes pnpm whenever
    pnpm is found, whatever else is there, takes node with the tsx
    loader when pnpm is missing and both of those are there, and raises
    the launcher error exactly when the host has no pnpm and lacks the
    loader or node. *)
Theorem build_cmd_resolution (e : Env) (w : World) :
  snd (_build_cmd (e, w)) = (e, w)
  /\ (forall pnpm, which_pnpm (host w) = Some pnpm ->
        fst (_build_cmd (e, w)) = inr ([pnpm; "tsx"; "headless/rl_server.ts"], debug e))
  /\ (forall node, which_pnpm (host w) = None -> loader_exists (host w) = true ->
        which_node (host w) = Some node ->
        fst (_build_cmd (e, w))
        = inr ([node; "--import"; loader_uri (host w); "headless/rl_server.ts"], debug e))
  /\ ((exists m, fst (_build_cmd (e, w)) = inl (LaunchUnavailable m))
      <-> no_launcher (host w)).
Proof.
  unfold _build_cmd, no_launcher.
  destruct (which_pnpm (host w)) as [pnpm|].
  { cbn [fst snd]. split; [reflexivity|]. split; [intros ? [= <-]; reflexivity|].
    split; [intros ? [=]|]. split; [intros [m [=]]|intros [[=] _]]. }
  destruct (loader_exists (host w)).
  - destruct (which_node (host w)) as [node|]; cbn [fst snd].
    + split; [reflexivity|]. split; [intros ? [=]|].
      split; [intros ? _ _ [= <-]; reflexivity|].
      split; [intros [m [=]]|intros [_ [[=]|[=]]]].
    + split; [reflexivity|]. split; [intros ? [=]|]. split; [intros ? _ _ [=]|].
      split; [intros _; split; [reflexivity|right; reflexivity]|intros _; eexists; reflexivity].
  - cbn [fst snd]. split; [reflexivity|]. split; [intros ? [=]|].
    split; [intros ? _ [=]|].
    split; [intros _; split; [reflexivity|left; reflexivity]|intros _; eexists; reflexivity].
Qed.

Lemma start_run seed e w :
  launches w -> hd true (write_script w) = true ->
  exists argv,
    _start seed (e, w)
    = (inr tt,
       (started_env (spawns w) e,
        log (EvWrite (spawns w) (hello_cmd seed (mode e) (single_mode e) (seat e)))
          (snd (next_write (log (EvPopen (spawns w) argv (debug e)) (snd (next_popen w))))))).
Proof.
  intros [Hl Hp] Hw. unfold _start, _build_cmd, _write_json, started_env. run.
  destruct Hl as [[pnpm Hl]|[Hl [node Hn]]].
  - rewrite Hl. cbn. rewrite Hp. cbn. rewrite Hw. cbn.
    eexists. destruct e; reflexivity.
  - destruct (which_pnpm (host w)) as [pnpm|]; cbn.
    + rewrite Hp. cbn. rewrite Hw. cbn. eexists. destruct e; reflexivity.
    + rewrite Hl, Hn. cbn. rewrite Hp. cbn. rewrite Hw. cbn.
      eexists. destruct e; reflexivity.
Qed.

Lemma start_no_launcher seed e w :
  no_launcher (host w) ->
  exists m, _start seed (e, w) = (inl (LaunchUnavailable m), (e, w)).
Proof.
  intros [Hp Hl]. unfold _start, _build_cmd. run. rewrite Hp.
  destruct (loader_exists (host w)); [|eexists; reflexivity].
  destruct Hl as [[=]|Hn]. rewrite Hn. eexists; reflexivity.
Qed.

Lemma close_world_trace p w : trace (close_world p w) = trace w ++ kill_events p w.
Proof.
  unfold close_world, kill_events. destruct p; [|rewrite app_nil_r; reflexivity].
  destruct (hd PollAlive (poll_script w)); cbn; rewrite ?app_nil_r; reflexivity.
Qed.

Lemma close_world_scripts p w :
  host (close_world p w) = host w
  /\ popen_script (close_world p w) = popen_script w
  /\ write_script (close_world p w) = write_script w
  /\ queue_script (close_world p w) = queue_script w.
Proof.
  unfold close_world. destruct p; [|repeat split].
  destruct (hd PollAlive (poll_script w)); repeat split.
Qed.

(** X6. [close] touches the worker in one way only: it logs a kill of
    the process it holds when [poll()] reports it still running, and
    nothing when the process has exited, when [poll()]/[kill()] raise
    or when no process is held; it consumes no stdout line and no
    write or spawn outcome. *)
Theorem close_io (e : Env) (w : World) :
  let w' := snd (snd (close (e, w))) in
  trace w' = trace w ++ kill_events (_proc e) w
  /\ host w' = host w
  /\ popen_script w' = popen_script w
  /\ write_script w' = write_script w
  /\ queue_script w' = queue_script w.
Proof.
  cbv zeta. rewrite close_eq. cbn [snd]. split; [apply close_world_trace|].
  apply close_world_scripts.
Qed.

(** X7. On a host that can launch the worker, when the first response
    after [hello] decodes and is not terminal, [reset] returns that
    observation and mask after exactly one spawn: the worker handle is
    the new process, the stored seed is the requested one (the base
    seed when none is given), the stored mask is the returned one, and
    the trace grows by the kill of a previous live worker, the spawn,
    the [hello] carrying seed, mode, single mode and seat, and one
    40-second read. *)
Theorem reset_first_response (seed : option Z) (e : Env) (w : World) (msg : json)
    obs mask r :
  launches w ->
  replies w msg ->
  decode_obs msg = inr obs ->
  decode_mask msg = inr mask ->
  decode_reward msg = inr r ->
  decode_done msg = inr false ->
  let seed0 := default (base_seed e) seed in
  exists s',
    reset seed (e, w) = (inr (obs, mask), s')
    /\ _proc (fst s') = Some (spawns w)
    /\ _episode_seed (fst s') = seed0
    /\ _last_mask (fst s') = mask
    /\ spawns (snd s') = S (spawns w)
    /\ exists argv,
         trace (snd s')
         = trace w ++ kill_events (_proc e) w
           ++ [EvPopen (spawns w) argv (debug e);
               EvWrite (spawns w) (hello_cmd seed0 (mode e) (single_mode e) (seat e));
               EvGet 40].
Proof.
  intros Hl Hr Ho Hm Hrw Hd seed0.
  set (e0 := started_env (spawns w) (set_episode_seed seed0 (closed_env e))).
  set (hello := EvWrite (spawns w) (hello_cmd seed0 (mode e) (single_mode e) (seat e))).
  assert (Ha : exists argv,
    reset_attempt seed0 (e, w)
    = (inr (obs, r, false),
       (set_last_mask mask
          (set_stderr_tail
             (keep_last 120 (_stderr_tail e0 ++ fst (hd ([], None) (queue_script w)))) e0),
        snd (next_get (log (EvGet 40) (log hello (snd (next_write
          (log (EvPopen (spawns w) argv (debug e))
             (snd (next_popen (close_world (_proc e) w)))))))))))).
  { unfold reset_attempt.
    erewrite run_bind_ok by apply close_eq.
    erewrite run_bind_ok by apply modify_eq. cbn [fst snd].
    pose proof (close_world_launches (_proc e) w Hl) as Hl'.
    pose proof (close_world_replies (_proc e) w msg Hr) as (Hw & errs & line & Hq & Hj).
    destruct (start_run seed0 (set_episode_seed seed0 (closed_env e)) _ Hl' Hw)
      as (argv & Hs).
    rewrite close_world_spawns in Hs.
    exists argv. erewrite run_bind_ok by exact Hs.
    erewrite run_bind_ok by (eapply read_json_ok; [reflexivity|exact Hq|exact Hj]).
    erewrite decode_step_ok by eassumption. cbn [fst snd].
    destruct (close_world_scripts (_proc e) w) as (_ & _ & _ & Hqs).
    rewrite Hqs in Hq. rewrite Hq. destruct e; reflexivity. }
  destruct Ha as (argv & Ha).
  eexists. split.
  { rewrite reset_unfold. cbn [fst]. fold seed0. cbv zeta. rewrite Ha.
    cbn [reset_result fst snd]. destruct e; reflexivity. }
  cbn [fst snd]. split; [destruct e; reflexivity|]. split; [destruct e; reflexivity|].
  split; [destruct e; reflexivity|]. split.
  - unfold spawns, log. cbn. rewrite !List.filter_app, !length_app. cbn.
    fold (spawns (close_world (_proc e) w)). rewrite close_world_spawns.
    unfold spawns. lia.
  - exists argv. cbn. rewrite close_world_trace, <- !app_assoc. destruct e; reflexivity.
Qed.

(** X8. On a host without a launcher [reset] raises the launcher
    error having spawned nothing: the previous worker is closed, the
    seed is stored, and the mask of the previous episode is still the
    stored one. *)
Theorem reset_launch_unavailable (seed : option Z) (e : Env) (w : World) :
  no_launcher (host w) ->
  exists m,
    reset seed (e, w)
    = (inl (LaunchUnavailable m),
       (set_episode_seed (default (base_seed e) seed) (closed_env e),
        close_world (_proc e) w)).
Proof.
  intros Hn. rewrite reset_unfold. cbn [fst]. cbv zeta. unfold reset_attempt.
  erewrite run_bind_ok by apply close_eq.
  erewrite run_bind_ok by apply modify_eq. cbn [fst snd].
  destruct (start_no_launcher (default (base_seed e) seed)
              (set_episode_seed (default (base_seed e) seed) (closed_env e))
              (close_world (_proc e) w)) as (m & Hs).
  { destruct (close_world_scripts (_proc e) w) as (Hh & _). rewrite Hh. exact Hn. }
  exists m. erewrite run_bind_err by exact Hs. reflexivity.
Qed.

End Launch.

(** ** Failures and outcomes of the exchanges *)

Section Exchanges.
Context `{Interp}.

Lemma read_json_timeout t e w pid errs :
  _proc e = Some pid ->
  hd ([], None) (queue_script w) = (errs, None) ->
  _read_json t (e, w)
  = (inl (Timeout (keep_last 120 (_stderr_tail e ++ errs))),
     (set_stderr_tail (keep_last 120 (_stderr_tail e ++ errs)) e,
      snd (next_get (log (EvGet t) w)))).
Proof.
  intros Hp Hq. unfold _read_json. run. rewrite Hp. cbn. rewrite Hq. cbn.
  destruct e; reflexivity.
Qed.

Lemma write_json_fail msg e w pid :
  _proc e = Some pid -> hd true (write_script w) = false ->
  _write_json msg (e, w) = (inl OSError, (e, snd (next_write w))).
Proof. intros Hp Hw. unfold _write_json. run. rewrite Hp. cbn. rewrite Hw. reflexivity. Qed.

(** X9. When the freshly started worker stays silent, [reset] raises
    the timeout error carrying the (at most 120, newest) stderr lines
    drained since the start; the worker is left running under the new
    handle, nothing kills it, and the stored mask is still the one of
    before. *)
Theorem reset_timeout (seed : option Z) (e : Env) (w : World) (errs : list string) :
  launches w ->
  hd true (write_script w) = true ->
  hd ([], None) (queue_script w) = (errs, None) ->
  exists s' argv,
    reset seed (e, w) = (inl (Timeout (keep_last 120 errs)), s')
    /\ _proc (fst s') = Some (spawns w)
    /\ _last_mask (fst s') = _last_mask e
    /\ trace (snd s')
       = trace w ++ kill_events (_proc e) w
         ++ [EvPopen (spawns w) argv (debug e);
             EvWrite (spawns w)
               (hello_cmd (default (base_seed e) seed) (mode e) (single_mode e) (seat e));
             EvGet 40].
Proof.
  intros Hl Hw Hq. set (seed0 := default (base_seed e) seed).
  pose proof (close_world_launches (_proc e) w Hl) as Hl'.
  destruct (close_world_scripts (_proc e) w) as (_ & _ & Hws & Hqs).
  destruct (start_run seed0 (set_episode_seed seed0 (closed_env e))
              (close_world (_proc e) w) Hl') as (argv & Hs).
  { rewrite Hws. exact Hw. }
  rewrite close_world_spawns in Hs.
  eexists _, argv. split.
  { rewrite reset_unfold. cbn [fst]. fold seed0. cbv zeta. unfold reset_attempt.
    erewrite run_bind_ok by apply close_eq.
    erewrite run_bind_ok by apply modify_eq. cbn [fst snd].
    erewrite run_bind_ok by exact Hs.
    erewrite run_bind_err
      by (eapply read_json_timeout; [reflexivity|cbn; rewrite Hqs; exact Hq]).
    cbn [reset_result]. reflexivity. }
  cbn [fst snd]. split; [destruct e; reflexivity|]. split; [destruct e; reflexivity|].
  cbn. rewrite close_world_trace, <- !app_assoc. destruct e; reflexivity.
Qed.

(** X10. With a live worker and a valid action, a decodable response
    makes [step] return its observation, reward and mask with
    [terminated] equal to the truthiness of [done] and
    [truncated = false]; the mask is stored, the trace grows by the
    step command and one 40-second read, and the worker is kept when
    [done] is falsy and closed (killed if still running) when it is
    truthy. *)
Theorem step_outcome (a : Z) (e : Env) (w : World) (pid : nat) (msg : json)
    obs mask r d :
  _proc e = Some pid ->
  0 <= a < Z.of_nat ACTION_DIM ->
  replies w msg ->
  decode_obs msg = inr obs ->
  decode_mask msg = inr mask ->
  decode_reward msg = inr r ->
  decode_done msg = inr d ->
  exists s',
    step a (e, w) = (inr (obs, r, d, false, mask), s')
    /\ _last_mask (fst s') = mask
    /\ _proc (fst s') = (if d then None else Some pid)
    /\ trace (snd s')
       = trace w ++ [EvWrite pid (step_cmd a); EvGet 40]
         ++ (if d then kill_events (Some pid) w else []).
Proof.
  intros Hp Ha (Hw & errs & line & Hq & Hj) Ho Hm Hrw Hd.
  set (e1 := set_last_mask mask
               (set_stderr_tail (keep_last 120 (_stderr_tail e ++ errs)) e)).
  set (w1 := snd (next_get (log (EvGet 40)
               (log (EvWrite pid (step_cmd a)) (snd (next_write w)))))).
  assert (Hs : step a (e, w)
               = (inr (obs, r, d, false, mask),
                  if d then (closed_env e1, close_world (Some pid) w1) else (e1, w1))).
  { unfold step.
    rewrite (run_bind_ok _ _ (e, w) (Some pid) (e, w))
      by (unfold gets; cbn; rewrite Hp; reflexivity).
    replace ((a <? 0) || (Z.of_nat ACTION_DIM <=? a)) with false
      by (symmetry; apply orb_false_iff; split; [apply Z.ltb_ge|apply Z.leb_gt]; lia).
    erewrite run_bind_ok by (apply write_json_ok; eassumption).
    erewrite run_bind_ok by (eapply read_json_ok; eassumption).
    erewrite run_bind_ok by (apply decode_step_ok; eassumption).
    cbn [fst snd]. erewrite run_bind_ok by apply gets_eq.
    cbn [fst _last_mask set_last_mask]. destruct d.
    - erewrite run_bind_ok by apply close_eq.
      replace (_proc (set_last_mask mask
                 (set_stderr_tail (keep_last 120 (_stderr_tail e ++ errs)) e)))
        with (Some pid) by (destruct e; cbn in *; congruence).
      reflexivity.
    - reflexivity. }
  eexists. split; [exact Hs|]. destruct d; cbn [fst snd].
  - split; [destruct e; reflexivity|]. split; [reflexivity|].
    rewrite close_world_trace. subst w1. cbn. rewrite <- !app_assoc. reflexivity.
  - split; [destruct e; reflexivity|]. split; [destruct e; exact Hp|].
    subst w1. cbn. rewrite <- !app_assoc. reflexivity.
Qed.

Lemma decode_step_bad_obs msg x s :
  decode_obs msg = inl x -> _decode_step msg s = (inl x, s).
Proof. intros Ho. unfold _decode_step. run. rewrite Ho. reflexivity. Qed.

Lemma decode_step_bad_mask msg obs x s :
  decode_obs msg = inr obs -> decode_mask msg = inl x -> _decode_step msg s = (inl x, s).
Proof. intros Ho Hm. unfold _decode_step. run. rewrite Ho, Hm. reflexivity. Qed.

Lemma decode_step_bad_reward msg obs mask x s :
  decode_obs msg = inr obs -> decode_mask msg = inr mask -> decode_reward msg = inl x ->
  _decode_step msg s = (inl x, (set_last_mask mask (fst s), snd s)).
Proof. intros Ho Hm Hr. unfold _decode_step. run. rewrite Ho, Hm, Hr. reflexivity. Qed.

Lemma step_exchange a e w pid msg :
  _proc e = Some pid ->
  0 <= a < Z.of_nat ACTION_DIM ->
  replies w msg ->
  exists errs,
    step a (e, w)
    = (_decode_step msg ≫= (fun '(obs, reward, done) =>
         info ← gets _last_mask;
         (if done : bool then close else mret tt);;
         mret (obs, reward, done, false, info)))
        (set_stderr_tail (keep_last 120 (_stderr_tail e ++ errs)) e,
         snd (next_get (log (EvGet 40) (log (EvWrite pid (step_cmd a)) (snd (next_write w)))))).
Proof.
  intros Hp Ha (Hw & errs & line & Hq & Hj). exists errs. unfold step.
  rewrite (run_bind_ok _ _ (e, w) (Some pid) (e, w))
    by (unfold gets; cbn; rewrite Hp; reflexivity).
  replace ((a <? 0) || (Z.of_nat ACTION_DIM <=? a)) with false
    by (symmetry; apply orb_false_iff; split; [apply Z.ltb_ge|apply Z.leb_gt]; lia).
  erewrite run_bind_ok by (apply write_json_ok; eassumption).
  erewrite run_bind_ok by (eapply read_json_ok; eassumption).
  reflexivity.
Qed.

(** X11. With a live worker and a valid action, a response that
    cannot be decoded makes [step] raise what the decoding raised and
    keep the worker: when the observation or the mask is at fault (a
    response that is no mapping included) the stored mask is the old
    one, but when only the reward is at fault the new mask has already
    been stored. *)
Theorem step_decode_failure (a : Z) (e : Env) (w : World) (pid : nat) (msg : json) :
  _proc e = Some pid ->
  0 <= a < Z.of_nat ACTION_DIM ->
  replies w msg ->
  (forall x, decode_obs msg = inl x ->
     exists s', step a (e, w) = (inl x, s')
       /\ _proc (fst s') = Some pid /\ _last_mask (fst s') = _last_mask e)
  /\ (forall obs x, decode_obs msg = inr obs -> decode_mask msg = inl x ->
     exists s', step a (e, w) = (inl x, s')
       /\ _proc (fst s') = Some pid /\ _last_mask (fst s') = _last_mask e)
  /\ (forall obs mask x,
     decode_obs msg = inr obs -> decode_mask msg = inr mask -> decode_reward msg = inl x ->
     exists s', step a (e, w) = (inl x, s')
       /\ _proc (fst s') = Some pid /\ _last_mask (fst s') = mask).
Proof.
  intros Hp Ha Hr. destruct (step_exchange a e w pid msg Hp Ha Hr) as (errs & Hs).
  split; [|split].
  - intros x Ho. eexists. split.
    { rewrite Hs. erewrite run_bind_err by (apply decode_step_bad_obs; exact Ho). reflexivity. }
    cbn [fst]. destruct e; split; [exact Hp|reflexivity].
  - intros obs x Ho Hm. eexists. split.
    { rewrite Hs. erewrite run_bind_err by (eapply decode_step_bad_mask; eassumption).
      reflexivity. }
    cbn [fst]. destruct e; split; [exact Hp|reflexivity].
  - intros obs mask x Ho Hm Hrw. eexists. split.
    { rewrite Hs. erewrite run_bind_err by (eapply decode_step_bad_reward; eassumption).
      reflexivity. }
    cbn [fst]. destruct e; split; [exact Hp|reflexivity].
Qed.

(** X12. With a live worker and a valid action, when the command is
    written but no line arrives in time, [step] raises the timeout
    error carrying the newest (at most 120) stderr lines; the worker is
    left running, the mask is untouched, and the trace shows the
    command and the read. *)
Theorem step_timeout (a : Z) (e : Env) (w : World) (pid : nat) (errs : list string) :
  _proc e = Some pid ->
  0 <= a < Z.of_nat ACTION_DIM ->
  hd true (write_script w) = true ->
  hd ([], None) (queue_script w) = (errs, None) ->
  exists s',
    step a (e, w) = (inl (Timeout (keep_last 120 (_stderr_tail e ++ errs))), s')
    /\ _proc (fst s') = Some pid
    /\ _last_mask (fst s') = _last_mask e
    /\ trace (snd s') = trace w ++ [EvWrite pid (step_cmd a); EvGet 40].
Proof.
  intros Hp Ha Hw Hq. eexists. split.
  { unfold step.
    rewrite (run_bind_ok _ _ (e, w) (Some pid) (e, w))
      by (unfold gets; cbn; rewrite Hp; reflexivity).
    replace ((a <? 0) || (Z.of_nat ACTION_DIM <=? a)) with false
      by (symmetry; apply orb_false_iff; split; [apply Z.ltb_ge|apply Z.leb_gt]; lia).
    erewrite run_bind_ok by (apply write_json_ok; eassumption).
    erewrite run_bind_err by (eapply read_json_timeout; eassumption).
    reflexivity. }
  cbn [fst snd]. split; [destruct e; exact Hp|]. split; [destruct e; reflexivity|].
  cbn. rewrite <- app_assoc. reflexivity.
Qed.

(** X13. With a live worker and a valid action, when the write to the
    worker's stdin fails, [step] raises the [OSError] and nothing else
    happens: the object is unchanged, handle included, nothing is
    logged and no stdout line is consumed. *)
Theorem step_write_failure (a : Z) (e : Env) (w : World) (pid : nat) :
  _proc e = Some pid ->
  0 <= a < Z.of_nat ACTION_DIM ->
  hd true (write_script w) = false ->
  exists w',
    step a (e, w) = (inl OSError, (e, w'))
    /\ trace w' = trace w
    /\ queue_script w' = queue_script w.
Proof.
  intros Hp Ha Hw. eexists. split.
  { unfold step.
    rewrite (run_bind_ok _ _ (e, w) (Some pid) (e, w))
      by (unfold gets; cbn; rewrite Hp; reflexivity).
    replace ((a <? 0) || (Z.of_nat ACTION_DIM <=? a)) with false
      by (symmetry; apply orb_false_iff; split; [apply Z.ltb_ge|apply Z.leb_gt]; lia).
    erewrite run_bind_err by (apply (write_json_fail _ _ _ pid); assumption).
    reflexivity. }
  split; reflexivity.
Qed.

End Exchanges.

(** ** Shapes of what is returned, bounds of what is kept *)

Section Bounds.
Context `{Interp}.

Lemma decode_step_obs msg s obs r d s' :
  _decode_step msg s = (inr (obs, r, d), s') -> decode_obs msg = inr obs.
Proof.
  unfold _decode_step. run.
  destruct (decode_obs msg) as [x|obs0]; cbn; [discriminate|].
  destruct (decode_mask msg) as [x|mask]; cbn; [discriminate|].
  destruct (decode_reward msg) as [x|r0]; cbn; [discriminate|].
  destruct (decode_done msg) as [x|d0]; cbn; [discriminate|].
  intros [= <- _ _ _]. reflexivity.
Qed.

Lemma reset_attempt_obs seed s obs r d s' :
  reset_attempt seed s = (inr (obs, r, d), s') -> length obs = OBS_DIM.
Proof.
  unfold reset_attempt. run. destruct s as [e w]. rewrite close_eq. cbn [fst snd].
  destruct (_start seed _) as [[x|[]] s1]; [discriminate|].
  destruct (_read_json 40 s1) as [[x|msg] s2]; [discriminate|].
  intros Hd. apply decode_step_obs in Hd. eapply decode_obs_length, Hd.
Qed.

(** X14. In every state, an observation that [step] or [reset]
    returns has exactly [OBS_DIM] elements. *)
Theorem returned_obs_length (s : St) :
  (forall a obs r t tr info s',
     step a s = (inr (obs, r, t, tr, info), s') -> length obs = OBS_DIM)
  /\ (forall seed obs info s',
     reset seed s = (inr (obs, info), s') -> length obs = OBS_DIM).
Proof.
  split.
  - intros a obs r t tr info s'. unfold step. run.
    destruct (_proc (fst s)); [|discriminate].
    destruct ((a <? 0) || (Z.of_nat ACTION_DIM <=? a)); [discriminate|].
    destruct (_write_json (step_cmd a) s) as [[x|[]] s1]; [discriminate|].
    destruct (_read_json 40 s1) as [[x|msg] s2]; [discriminate|].
    destruct (_decode_step msg s2) as [[x|[[obs' r'] d]] [e3 w3]] eqn:Hd; [discriminate|].
    apply decode_step_obs in Hd. cbn [fst snd]. destruct d.
    + rewrite close_eq. intros [= <- _ _ _ _ _]. eapply decode_obs_length, Hd.
    + intros [= <- _ _ _ _ _]. eapply decode_obs_length, Hd.
  - intros seed obs info s'. rewrite reset_unfold. cbv zeta.
    destruct (reset_attempt _ s) as [[x|[[obs1 r1] d1]] s1] eqn:H1; cbn [reset_result];
      [discriminate|].
    destruct d1.
    + destruct (reset_attempt _ s1) as [[x|[[obs2 r2] d2]] s2] eqn:H2; cbn [reset_result];
        [discriminate|]. intros [= <- _ _]. eapply reset_attempt_obs, H2.
    + intros [= <- _ _]. eapply reset_attempt_obs, H1.
Qed.

(** *** The stderr tail *)

Ltac tail_walk :=
  repeat lazymatch goal with
    | |- hoare _ (_ ≫= _) _ => apply (keeps_bind tail_ok); [|intros ?]
    | |- hoare _ (mret _) _ => apply (keeps_ret tail_ok)
    | |- hoare _ (raise _) _ => apply (keeps_raise tail_ok)
    | |- hoare _ (gets _) _ => apply (keeps_gets tail_ok)
    | |- hoare _ (lift _) _ => apply (keeps_lift tail_ok)
    | |- hoare _ (world _) _ => apply (keeps_world tail_ok)
    | |- hoare _ (emit _) _ => apply (keeps_emit tail_ok)
    | |- hoare _ (try_pass _) _ => apply (keeps_try tail_ok)
    | |- hoare _ (modify _) _ =>
        apply (keeps_modify tail_ok); intros [] ?; unfold tail_ok in *; cbn in *;
        first [assumption | apply keep_last_length | lia]
    | |- hoare _ (match ?x with _ => _ end) _ => destruct x
    | |- hoare _ (let _ := _ in _) _ => cbv zeta
    | |- hoare _ _build_cmd _ => apply (keeps_build_cmd tail_ok)
    end.

Lemma tail_ok_write_json msg :
  hoare (fun s => tail_ok (fst s)) (_write_json msg) (fun s => tail_ok (fst s)).
Proof. unfold _write_json. tail_walk. Qed.

Lemma tail_ok_read_json t :
  hoare (fun s => tail_ok (fst s)) (_read_json t) (fun s => tail_ok (fst s)).
Proof. unfold _read_json. tail_walk. Qed.

Lemma tail_ok_decode_step msg :
  hoare (fun s => tail_ok (fst s)) (_decode_step msg) (fun s => tail_ok (fst s)).
Proof. unfold _decode_step. tail_walk. Qed.

Lemma tail_ok_close : hoare (fun s => tail_ok (fst s)) close (fun s => tail_ok (fst s)).
Proof. unfold close. tail_walk. Qed.

Lemma tail_ok_start seed :
  hoare (fun s => tail_ok (fst s)) (_start seed) (fun s => tail_ok (fst s)).
Proof. unfold _start, _write_json. tail_walk. Qed.

Lemma tail_ok_call c s : tail_ok (fst s) -> tail_ok (fst (run_call c s)).
Proof.
  pose proof tail_ok_write_json as Hw. pose proof tail_ok_read_json as Hr.
  pose proof tail_ok_decode_step as Hd. pose proof tail_ok_close as Hc.
  pose proof tail_ok_start as Hs.
  assert (Hattempt : forall seed,
    hoare (fun s => tail_ok (fst s)) (reset_attempt seed) (fun s => tail_ok (fst s))).
  { intros seed. unfold reset_attempt.
    apply (keeps_bind tail_ok); [exact Hc|intros _].
    apply (keeps_bind tail_ok);
      [apply (keeps_modify tail_ok); intros [] ?; assumption|intros _].
    apply (keeps_bind tail_ok); [apply Hs|intros _].
    apply (keeps_bind tail_ok); [apply Hr|intros msg]. apply Hd. }
  intros Ht. destruct c as [seed|a| | |]; cbn [run_call].
  - rewrite reset_unfold. cbv zeta.
    pose proof (Hattempt (default (base_seed (fst s)) seed) s Ht) as H1.
    destruct (reset_attempt _ s) as [[x|[[obs1 r1] d1]] s1]; cbn [reset_result snd] in *;
      [exact H1|].
    destruct d1; [|exact H1].
    pose proof (Hattempt (default (base_seed (fst s)) seed + 1) s1 H1) as H2.
    destruct (reset_attempt _ s1) as [[x|[[obs2 r2] d2]] s2]; exact H2.
  - revert s Ht. change (hoare (fun s => tail_ok (fst s)) (step a) (fun s => tail_ok (fst s))).
    unfold step.
    apply (keeps_bind tail_ok); [apply (keeps_gets tail_ok)|intros [pid|]];
      [|apply (keeps_raise tail_ok)].
    destruct ((a <? 0) || (Z.of_nat ACTION_DIM <=? a)); [apply (keeps_raise tail_ok)|].
    apply (keeps_bind tail_ok); [apply Hw|intros _].
    apply (keeps_bind tail_ok); [apply Hr|intros msg].
    apply (keeps_bind tail_ok); [apply Hd|intros [[obs r] d]].
    apply (keeps_bind tail_ok); [apply (keeps_gets tail_ok)|intros info].
    apply (keeps_bind tail_ok); [destruct d; [exact Hc|apply (keeps_ret tail_ok)]|intros _].
    apply (keeps_ret tail_ok).
  - exact Ht.
  - revert s Ht.
    change (hoare (fun s => tail_ok (fst s)) get_snapshot (fun s => tail_ok (fst s))).
    unfold get_snapshot.
    apply (keeps_bind tail_ok); [apply (keeps_gets tail_ok)|intros [pid|]];
      [|apply (keeps_raise tail_ok)].
    apply (keeps_bind tail_ok); [apply Hw|intros _].
    apply (keeps_bind tail_ok); [apply Hr|intros msg].
    apply (keeps_bind tail_ok); [apply (keeps_lift tail_ok)|intros snap].
    destruct snap; first [apply (keeps_ret tail_ok)|apply (keeps_raise tail_ok)].
  - apply (Hc s Ht).
Qed.

(** X15. From construction on, after any sequence of calls (returning
    or raising), the stored stderr tail holds at most 120 lines; so
    does the tail a timeout or invalid-JSON error carries. *)
Theorem stderr_tail_bounded (md sm : string) (st sd : Z) (dbg : bool)
    (w : World) (cs : list call) :
  let s := run_calls cs (__init__ md sm st sd dbg, w) in
  (length (_stderr_tail (fst s)) <= 120)%nat
  /\ (forall t tl, fst (_read_json t s) = inl (Timeout tl) -> (length tl <= 120)%nat)
  /\ (forall t line tl,
        fst (_read_json t s) = inl (ProtocolError line tl) -> (length tl <= 120)%nat).
Proof.
  cbv zeta. split.
  - assert (Hinit : tail_ok (fst (__init__ md sm st sd dbg, w))) by (cbn; unfold tail_ok; cbn; lia).
    revert Hinit. generalize (__init__ md sm st sd dbg, w).
    induction cs as [|c cs IH]; intros s Hs; [exact Hs|].
    unfold run_calls. cbn [fold_left]. apply IH, tail_ok_call, Hs.
  - generalize (run_calls cs (__init__ md sm st sd dbg, w)). intros [e w'].
    unfold _read_json. run. destruct (_proc e); cbn; [|split; intros; discriminate].
    destruct (hd ([], None) (queue_script w')) as [errs [line|]]; cbn.
    + destruct (json_loads line); cbn; split; intros; try discriminate.
      match goal with Heq : inl _ = inl _ |- _ => injection Heq as _ <- end.
      destruct e; apply keep_last_length.
    + split; intros; try discriminate.
      match goal with Heq : inl _ = inl _ |- _ => injection Heq as <- end.
      destruct e; apply keep_last_length.
Qed.

End Bounds.

(** ** Before the first reset, and across resets *)

Section Episodes.
Context `{Interp}.

Lemma run_call_closed_world c e w :
  is_reset c = false -> _proc e = None -> snd (run_call c (e, w)) = w.
Proof.
  intros Hc Hp. destruct c as [seed|a| | |]; cbn [run_call]; try discriminate.
  - rewrite step_closed by exact Hp. reflexivity.
  - reflexivity.
  - rewrite get_snapshot_closed by exact Hp. reflexivity.
  - rewrite close_eq. cbn [snd]. rewrite Hp. reflexivity.
Qed.

(** X16. Until [reset] is called nothing reaches the outside: after
    any calls of [step], [action_masks], [get_snapshot] and [close] on a
    freshly constructed object the world is what it was (no spawn, no
    write, no read, no kill), and [step] and [get_snapshot] raise the
    environment-is-closed error. *)
Theorem no_io_before_reset (md sm : string) (st sd : Z) (dbg : bool)
    (w : World) (cs : list call) :
  forallb (fun c => negb (is_reset c)) cs = true ->
  let s := run_calls cs (__init__ md sm st sd dbg, w) in
  snd s = w
  /\ (forall a, step a s = (inl (NotRunning closed_msg), s))
  /\ get_snapshot s = (inl (NotRunning closed_msg), s).
Proof.
  intros Hcs. cbv zeta.
  assert (Hgen : forall s0, _proc (fst s0) = None ->
            snd (run_calls cs s0) = snd s0 /\ _proc (fst (run_calls cs s0)) = None).
  { clear w. induction cs as [|c cs IH]; intros s0 Hp; [split; [reflexivity|exact Hp]|].
    cbn in Hcs. apply andb_true_iff in Hcs as [Hc Hcs']. apply negb_true_iff in Hc.
    unfold run_calls. cbn [fold_left].
    destruct (IH Hcs' (run_call c s0)) as [Hw Hp'].
    { apply run_call_closed; assumption. }
    split; [|exact Hp'].
    unfold run_calls in Hw. rewrite Hw. destruct s0 as [e0 w0].
    apply run_call_closed_world; assumption. }
  destruct (Hgen (__init__ md sm st sd dbg, w) eq_refl) as [Hw Hp].
  split; [exact Hw|]. split.
  - intros a. apply step_closed, Hp.
  - apply get_snapshot_closed, Hp.
Qed.



(** *** Nested and ragged observations *)

Lemma discover_shape_cons v0 rest :
  discover_shape (JArr (v0 :: rest))
  = match discover_shape v0 with
    | None => None
    | Some s =>
        if forallb (fun w => bool_decide (discover_shape w = Some s)) rest
        then Some (length (v0 :: rest) :: s) else None
    end.
Proof. reflexivity. Qed.

Lemma rows_shape (rows : list (list json)) (row : list json) (c : nat) :
  Forall (fun r => length r = c /\ forallb is_scalar r = true) (row :: rows) ->
  discover_shape (JArr (map JArr (row :: rows))) = Some [S (length rows); c]
  /\ leaves (JArr (map JArr (row :: rows))) = concat (row :: rows).
Proof.
  intros Hrows.
  assert (Heach : forall r, In r (row :: rows) ->
            discover_shape (JArr r) = Some [c] /\ leaves (JArr r) = r).
  { intros r Hr. rewrite Forall_forall in Hrows.
    apply list_elem_of_In, Hrows in Hr. destruct Hr as [<- Hs].
    apply flat_shape, Hs. }
  split.
  - cbn [map]. rewrite discover_shape_cons.
    destruct (Heach row (or_introl eq_refl)) as [-> _].
    replace (forallb _ (map JArr rows)) with true.
    { cbn [length]. rewrite length_map. reflexivity. }
    symmetry. apply forallb_forall. intros v Hv. apply in_map_iff in Hv.
    destruct Hv as (r & <- & Hr). apply bool_decide_eq_true.
    apply Heach. right. exact Hr.
  - change (concat (map leaves (map JArr (row :: rows))) = concat (row :: rows)).
    rewrite map_map. clear Hrows.
    induction (row :: rows) as [|r l IH]; [reflexivity|].
    cbn [map concat]. destruct (Heach r (or_introl eq_refl)) as [_ Hl].
    rewrite Hl. f_equal.
    apply IH. intros r' Hr'. apply Heach. right. exact Hr'.
Qed.

Lemma decode_obs_inhomogeneous (kvs : gmap string json) (o : json) :
  kvs !! "obs" = Some o -> discover_shape o = None ->
  decode_obs (JObj kvs) = inl ValueError.
Proof.
  intros Hk Hsh. unfold decode_obs. simpl. rewrite Hk. simpl.
  unfold asarray. rewrite Hsh. reflexivity.
Qed.

(** X18. An observation sent as rows of equally many numbers is
    flattened row by row, then cut or zero-padded to [OBS_DIM] like a
    flat one; but rows of different lengths are not repaired: the
    decoding raises the [ValueError] of numpy. *)
Theorem decode_obs_rows (kvs : gmap string json) (row : list json)
    (rows : list (list json)) (c : nat) :
  kvs !! "obs" = Some (JArr (map JArr (row :: rows))) ->
  forallb is_scalar row = true ->
  length row = c ->
  (forall ys,
     Forall (fun r => length r = c /\ forallb is_scalar r = true) rows ->
     rmap (cast_f32 float_of_str) (concat (row :: rows)) = inr ys ->
     decode_obs (JObj kvs)
     = inr (take OBS_DIM ys ++ replicate (OBS_DIM - length ys) f32_zero))
  /\ ((exists r, In r rows /\ forallb is_scalar r = true /\ length r <> c) ->
     decode_obs (JObj kvs) = inl ValueError).
Proof.
  intros Hk Hrow Hc. split.
  - intros ys Hrows Hys.
    destruct (rows_shape rows row c) as [Hsh Hlv].
    { constructor; [split; assumption|exact Hrows]. }
    eapply decode_obs_flattened; [exact Hk|exact Hsh|]. rewrite Hlv. exact Hys.
  - intros (r & Hr & Hs & Hlen).
    eapply decode_obs_inhomogeneous; [exact Hk|].
    cbn [map]. rewrite discover_shape_cons.
    destruct (flat_shape row Hrow) as [-> _].
    destruct (forallb _ (map JArr rows)) eqn:Hall; [|reflexivity].
    exfalso. rewrite forallb_forall in Hall.
    specialize (Hall (JArr r) (in_map JArr rows r Hr)).
    apply bool_decide_eq_true in Hall.
    destruct (flat_shape r Hs) as [Hsh _]. rewrite Hsh in Hall.
    injection Hall as Hl. apply Hlen. rewrite Hl. exact Hc.
Qed.

End Episodes.

(** ** What decoding can raise *)

Section DecodeErrors.
Context `{Interp}.

Lemma rmap_error {A B} (f : A -> result B) (Q : exn -> Prop) l e :
  (forall x e', f x = inl e' -> Q e') -> rmap f l = inl e -> Q e.
Proof.
  intros Hf. induction l as [|x l IH]; cbn; [discriminate|].
  destruct (f x) as [e'|y] eqn:Hx; cbn.
  - intros [= <-]. eapply Hf, Hx.
  - destruct (rmap f l) as [e'|ys]; cbn; [|discriminate]. intros [= <-]. apply IH. reflexivity.
Qed.

Lemma py_float_error v e :
  py_float float_of_str v = inl e -> e = TypeError \/ e = ValueError \/ e = OverflowError.
Proof.
  destruct v; cbn; try (intros [= <-]; auto); try discriminate.
  - unfold float_of_int. destruct (binary_normalize _ _ _ _ _); try discriminate.
    intros [= <-]. auto.
  - destruct (float_of_str s); [discriminate|]. intros [= <-]. auto.
Qed.

Lemma cast_f32_error v e :
  cast_f32 float_of_str v = inl e -> e = TypeError \/ e = ValueError \/ e = OverflowError.
Proof.
  destruct v; try discriminate; unfold cast_f32;
    match goal with |- rbind (py_float _ ?v) _ = _ -> _ =>
      destruct (py_float float_of_str v) as [e'|x] eqn:Hf; cbn; [|discriminate];
      intros [= <-]; eapply py_float_error, Hf end.
Qed.

Lemma asarray_error {A} (cast : json -> result A) v e :
  (forall x e', cast x = inl e' -> e' = TypeError \/ e' = ValueError \/ e' = OverflowError) ->
  asarray cast v = inl e -> e = TypeError \/ e = ValueError \/ e = OverflowError.
Proof.
  intros Hc. unfold asarray. destruct (discover_shape v); [|intros [= <-]; auto].
  destruct (rmap cast (leaves v)) as [e'|xs] eqn:Hr; cbn; [|discriminate].
  intros [= <-].
  apply (rmap_error cast (fun x => x = TypeError \/ x = ValueError \/ x = OverflowError)
           (leaves v) e' Hc Hr).
Qed.

Lemma msg_get_error msg key dflt e :
  msg_get msg key dflt = inl e -> e = AttributeError /\ is_mapping msg = false.
Proof. destruct msg; cbn; try discriminate; intros [= <-]; split; reflexivity. Qed.

Lemma msg_get_mapping msg key dflt v : msg_get msg key dflt = inr v -> is_mapping msg = true.
Proof. destruct msg; cbn; try discriminate. reflexivity. Qed.

Lemma decode_fields_error msg e :
  decode_obs msg = inl e \/ decode_mask msg = inl e
  \/ decode_reward msg = inl e \/ decode_done msg = inl e ->
  decode_exn e /\ (e = AttributeError <-> is_mapping msg = false).
Proof.
  assert (Hget : forall key dflt e', msg_get msg key dflt = inl e' ->
             decode_exn e' /\ (e' = AttributeError <-> is_mapping msg = false)).
  { intros key dflt e' Hg. apply msg_get_error in Hg. destruct Hg as [-> Hm].
    split; [unfold decode_exn; auto|]. split; auto. }
  assert (Hin : forall key dflt v e', msg_get msg key dflt = inr v ->
             e' = TypeError \/ e' = ValueError \/ e' = OverflowError ->
             decode_exn e' /\ (e' = AttributeError <-> is_mapping msg = false)).
  { intros key dflt v e' Hg He. apply msg_get_mapping in Hg. rewrite Hg.
    split; [unfold decode_exn; tauto|].
    split; [intros ->; destruct He as [|[|]]; discriminate|discriminate]. }
  unfold decode_obs, decode_mask, decode_reward, decode_done.
  intros [Hd|[Hd|[Hd|Hd]]].
  - destruct (msg_get msg "obs" (JArr [])) as [e'|o] eqn:Hg; cbn in Hd.
    + injection Hd as <-. eapply Hget, Hg.
    + destruct (asarray _ o) as [e'|a] eqn:Ha; cbn in Hd; [|discriminate].
      injection Hd as <-. eapply Hin; [exact Hg|].
      eapply asarray_error, Ha. apply cast_f32_error.
  - destruct (msg_get msg "mask" (JArr [])) as [e'|o] eqn:Hg; cbn in Hd.
    + injection Hd as <-. eapply Hget, Hg.
    + destruct (asarray _ o) as [e'|a] eqn:Ha; cbn in Hd; [|discriminate].
      injection Hd as <-. eapply Hin; [exact Hg|].
      eapply asarray_error, Ha. unfold cast_bool. intros; discriminate.
  - destruct (msg_get msg "reward" (JFloat float_zero)) as [e'|o] eqn:Hg; cbn in Hd.
    + injection Hd as <-. eapply Hget, Hg.
    + eapply Hin; [exact Hg|]. eapply py_float_error, Hd.
  - destruct (msg_get msg "done" (JBool false)) as [e'|o] eqn:Hg; cbn in Hd.
    + injection Hd as <-. eapply Hget, Hg.
    + discriminate.
Qed.

(** X19. Whatever [_decode_step] raises is a [TypeError], a
    [ValueError], an [OverflowError] or an [AttributeError], and it is
    the [AttributeError] exactly when the response is not a mapping;
    the worker script and the trace are never touched by decoding. *)
Theorem decode_step_raises_only (msg : json) (s : St) (e : exn) :
  fst (_decode_step msg s) = inl e ->
  decode_exn e
  /\ (e = AttributeError <-> is_mapping msg = false)
  /\ snd (snd (_decode_step msg s)) = snd s.
Proof.
  unfold _decode_step. run.
  destruct (decode_obs msg) as [x|obs] eqn:Ho; cbn.
  { intros [= <-]. destruct (decode_fields_error msg x (or_introl Ho)). auto. }
  destruct (decode_mask msg) as [x|mask] eqn:Hm; cbn.
  { intros [= <-]. destruct (decode_fields_error msg x (or_intror (or_introl Hm))). auto. }
  destruct (decode_reward msg) as [x|r] eqn:Hr; cbn.
  { intros [= <-].
    destruct (decode_fields_error msg x (or_intror (or_intror (or_introl Hr)))). auto. }
  destruct (decode_done msg) as [x|d] eqn:Hd; cbn; [|discriminate].
  intros [= <-].
  destruct (decode_fields_error msg x (or_intror (or_intror (or_intror Hd)))). auto.
Qed.

End DecodeErrors.

(** ** The driver *)

Section DriverSafety.
Context `{Interp}.

Lemma nia_bind {A B} (m : M A) (k : A -> M B) :
  no_invalid_action m -> (forall x, no_invalid_action (k x)) -> no_invalid_action (m ≫= k).
Proof.
  intros Hm Hk s a. unfold mbind, M_bind, bind. specialize (Hm s a).
  destruct (m s) as [[e|x] s']; cbn [fst] in *; [|apply Hk].
  intros [= ->]. apply Hm. reflexivity.
Qed.

Lemma nia_ret {A} (x : A) : no_invalid_action (mret x).
Proof. intros s a. discriminate. Qed.

Lemma nia_gets {A} (f : Env -> A) : no_invalid_action (gets f).
Proof. intros s a. discriminate. Qed.

Lemma nia_modify f : no_invalid_action (modify f).
Proof. intros s a. discriminate. Qed.

Lemma nia_world {A} (f : World -> A * World) : no_invalid_action (world f).
Proof. intros s a. unfold world. destruct (f (snd s)). discriminate. Qed.

Lemma nia_emit ev : no_invalid_action (emit ev).
Proof. apply nia_world. Qed.

Lemma nia_try m : no_invalid_action (try_pass m).
Proof. intros s a. unfold try_pass. destruct (m s). discriminate. Qed.

Lemma nia_raise {A} e : (forall a, e <> InvalidAction a) -> no_invalid_action (raise e : M A).
Proof. intros He s a [= Heq]. apply (He a Heq). Qed.

Lemma nia_lift {A} (r : result A) :
  (forall a, r <> inl (InvalidAction a)) -> no_invalid_action (lift r).
Proof. intros Hr s a. apply Hr. Qed.

Lemma decode_exn_valid e a : decode_exn e -> e <> InvalidAction a.
Proof. intros [->|[->|[->| ->]]]; discriminate. Qed.

Ltac nia_walk :=
  repeat lazymatch goal with
    | |- no_invalid_action (_ ≫= _) => apply nia_bind; [|intros ?]
    | |- no_invalid_action (mret _) => apply nia_ret
    | |- no_invalid_action (raise _) => apply nia_raise; intros ?; discriminate
    | |- no_invalid_action (gets _) => apply nia_gets
    | |- no_invalid_action (modify _) => apply nia_modify
    | |- no_invalid_action (world _) => apply nia_world
    | |- no_invalid_action (emit _) => apply nia_emit
    | |- no_invalid_action (try_pass _) => apply nia_try
    | |- no_invalid_action (match ?x with _ => _ end) => destruct x
    | |- no_invalid_action (let _ := _ in _) => cbv zeta
    end.

Lemma nia_build_cmd : no_invalid_action _build_cmd.
Proof.
  intros [e w] a. unfold _build_cmd.
  destruct (which_pnpm (host w)); [discriminate|].
  destruct (loader_exists (host w)); [|discriminate].
  destruct (which_node (host w)); discriminate.
Qed.

Lemma nia_write_json msg : no_invalid_action (_write_json msg).
Proof. unfold _write_json. nia_walk. Qed.

Lemma nia_read_json t : no_invalid_action (_read_json t).
Proof. unfold _read_json. nia_walk. Qed.

Lemma nia_close : no_invalid_action close.
Proof. unfold close. nia_walk. Qed.

Lemma nia_start seed : no_invalid_action (_start seed).
Proof. unfold _start, _write_json. nia_walk. apply nia_build_cmd. Qed.

Lemma nia_decode_step msg : no_invalid_action (_decode_step msg).
Proof.
  unfold _decode_step. nia_walk; apply nia_lift; intros a Hd;
    eapply (decode_exn_valid _ a); try reflexivity;
    eapply (decode_fields_error msg); eauto.
Qed.

Lemma nia_reset_attempt seed : no_invalid_action (reset_attempt seed).
Proof.
  unfold reset_attempt.
  apply nia_bind; [apply nia_close|intros _].
  apply nia_bind; [apply nia_modify|intros _].
  apply nia_bind; [apply nia_start|intros _].
  apply nia_bind; [apply nia_read_json|intros msg]. apply nia_decode_step.
Qed.

Lemma nia_reset seed : no_invalid_action (reset seed).
Proof.
  intros s a. rewrite reset_unfold. cbv zeta.
  pose proof (nia_reset_attempt (default (base_seed (fst s)) seed) s a) as H1.
  destruct (reset_attempt _ s) as [[x|[[obs1 r1] d1]] s1]; cbn [reset_result fst] in *;
    [intros [= ->]; apply H1; reflexivity|].
  destruct d1; [|discriminate].
  pose proof (nia_reset_attempt (default (base_seed (fst s)) seed + 1) s1 a) as H2.
  destruct (reset_attempt _ s1) as [[x|[[obs2 r2] d2]] s2]; cbn [reset_result fst] in *;
    [intros [= ->]; apply H2; reflexivity|discriminate].
Qed.

Lemma nia_get_snapshot : no_invalid_action get_snapshot.
Proof.
  unfold get_snapshot.
  apply nia_bind; [apply nia_gets|intros [pid|]]; [|apply nia_raise; intros ?; discriminate].
  apply nia_bind; [apply nia_write_json|intros _].
  apply nia_bind; [apply nia_read_json|intros msg].
  apply nia_bind.
  - apply nia_lift. intros a Hg. apply msg_get_error in Hg. destruct Hg as [[=] _].
  - intros snap. destruct snap; first [apply nia_ret|apply nia_raise; intros ?; discriminate].
Qed.

Lemma nia_step a : 0 <= a < Z.of_nat ACTION_DIM -> no_invalid_action (step a).
Proof.
  intros Ha. unfold step.
  apply nia_bind; [apply nia_gets|intros [pid|]]; [|apply nia_raise; intros ?; discriminate].
  replace ((a <? 0) || (Z.of_nat ACTION_DIM <=? a)) with false
    by (symmetry; apply orb_false_iff; split; [apply Z.ltb_ge|apply Z.leb_gt]; lia).
  apply nia_bind; [apply nia_write_json|intros _].
  apply nia_bind; [apply nia_read_json|intros msg].
  apply nia_bind; [apply nia_decode_step|intros [[obs r] d]].
  apply nia_bind; [apply nia_gets|intros info].
  apply nia_bind; [destruct d; [apply nia_close|apply nia_ret]|intros _]. apply nia_ret.
Qed.

Lemma pick_action_range draw mask :
  (length mask <= ACTION_DIM)%nat -> 0 <= pick_action draw mask < Z.of_nat ACTION_DIM.
Proof.
  intros Hlen. unfold pick_action, flatnonzero.
  destruct (flatnonzero_from 0 mask) as [|x0 legal] eqn:Hl; [cbn; lia|].
  set (l := x0 :: legal) in *.
  replace (0 <? length l)%nat with true by (symmetry; apply Nat.ltb_lt; cbn; lia).
  set (x := nth (draw mod length l) l 0%nat).
  assert (Hin : In x (flatnonzero_from 0 mask)).
  { rewrite Hl. apply nth_In, Nat.mod_upper_bound. cbn. lia. }
  apply flatnonzero_from_spec in Hin. lia.
Qed.

Lemma step_safe a s :
  mask_ok (fst s) -> 0 <= a < Z.of_nat ACTION_DIM ->
  mask_ok (fst (snd (step a s)))
  /\ (forall a', fst (step a s) <> inl (InvalidAction a'))
  /\ (forall obs r t tr info, fst (step a s) = inr (obs, r, t, tr, info) ->
        length info = ACTION_DIM).
Proof.
  intros Hs Ha. pose proof (run_call_mask_ok (CallStep a) s Hs) as Hm. cbn [run_call] in Hm.
  split; [exact Hm|]. split; [intros a'; apply nia_step, Ha|].
  intros obs r t tr info Hr. destruct (step a s) as [res s'] eqn:Hst. cbn [fst snd] in *.
  subst res. rewrite (step_info _ _ _ _ _ _ _ _ Hst). exact Hm.
Qed.

Lemma reset_safe seed s :
  mask_ok (fst s) ->
  mask_ok (fst (snd (reset seed s)))
  /\ (forall a', fst (reset seed s) <> inl (InvalidAction a'))
  /\ (forall obs info, fst (reset seed s) = inr (obs, info) -> length info = ACTION_DIM).
Proof.
  intros Hs. pose proof (run_call_mask_ok (CallReset seed) s Hs) as Hm. cbn [run_call] in Hm.
  split; [exact Hm|]. split; [intros a'; apply nia_reset|].
  intros obs info Hr. destruct (reset seed s) as [res s'] eqn:Hst. cbn [fst snd] in *.
  subst res. rewrite (reset_info _ _ _ _ _ Hst). exact Hm.
Qed.

Lemma snapshot_print_safe (show : bool) (steps : Z) (out : list printed) (s : St) :
  mask_ok (fst s) ->
  let m : M (list printed) :=
    if show && (steps =? 0)
    then snap ← get_snapshot; line ← lift (snapshot_line snap); mret (out ++ [line])
    else mret out in
  mask_ok (fst (snd (m s))) /\ forall a, fst (m s) <> inl (InvalidAction a).
Proof.
  intros Hs. cbv zeta. destruct (show && (steps =? 0)); [|split; [exact Hs|discriminate]].
  pose proof (run_call_mask_ok CallGetSnapshot s Hs) as Hm. cbn [run_call] in Hm.
  pose proof (nia_get_snapshot s) as Hn.
  destruct (get_snapshot s) as [[e|snap] s1] eqn:Hg; cbn [fst snd] in *.
  - erewrite run_bind_err by exact Hg. cbn [fst snd]. split; [exact Hm|].
    intros a [= ->]. apply (Hn a). reflexivity.
  - erewrite run_bind_ok by exact Hg.
    destruct (snapshot_line snap) as [e|line] eqn:Hl.
    + erewrite run_bind_err by reflexivity.
      cbn [fst snd]. split; [exact Hm|]. intros a [= ->].
      unfold snapshot_line in Hl.
      destruct (default (JArr []) (snap !! "players")); discriminate.
    + erewrite run_bind_ok by reflexivity.
      split; [exact Hm|discriminate].
Qed.

Lemma episode_steps_safe show fuel steps total info rng out s :
  mask_ok (fst s) -> length info = ACTION_DIM ->
  mask_ok (fst (snd (episode_steps show fuel steps total info rng out s)))
  /\ forall a, fst (episode_steps show fuel steps total info rng out s) <> inl (InvalidAction a).
Proof.
  revert steps total info rng out s.
  induction fuel as [|fuel IH]; intros steps total info rng out s Hs Hinfo.
  { cbn. split; [exact Hs|discriminate]. }
  cbn [episode_steps]. cbv zeta.
  assert (Ha : 0 <= pick_action (hd 0%nat rng) info < Z.of_nat ACTION_DIM)
    by (apply pick_action_range; lia).
  destruct (step_safe _ s Hs Ha) as (Hm1 & Hn1 & Hi1).
  destruct (step (pick_action (hd 0%nat rng) info) s)
    as [[e|[[[[obs r] t] tr] info']] s1] eqn:Hst; cbn [fst snd] in *.
  { erewrite run_bind_err by exact Hst. cbn [fst snd]. split; [exact Hm1|].
    intros a' [= ->]. apply (Hn1 a'). reflexivity. }
  erewrite run_bind_ok by exact Hst. cbn beta iota.
  specialize (Hi1 _ _ _ _ _ eq_refl).
  pose proof (snapshot_print_safe show steps out s1 Hm1) as Hsnap. cbv zeta in Hsnap.
  destruct Hsnap as [Hm2 Hn2].
  match goal with |- context [(?m ≫= ?k) s1] =>
    destruct (m s1) as [[e|out'] s2] eqn:Hsn end; cbn [fst snd] in *.
  { erewrite run_bind_err by exact Hsn. cbn [fst snd]. split; [exact Hm2|].
    intros a' [= ->]. apply (Hn2 a'). reflexivity. }
  erewrite run_bind_ok by exact Hsn.
  destruct (t || tr); [split; [exact Hm2|discriminate]|].
  apply IH; assumption.
Qed.

Lemma episodes_loop_safe args n ep rng out s :
  mask_ok (fst s) ->
  mask_ok (fst (snd (episodes_loop args n ep rng out s)))
  /\ forall a, fst (episodes_loop args n ep rng out s) <> inl (InvalidAction a).
Proof.
  revert ep rng out s. induction n as [|n IH]; intros ep rng out s Hs.
  { cbn. split; [exact Hs|discriminate]. }
  cbn [episodes_loop].
  destruct (reset_safe (Some (arg_seed args + ep)) s Hs) as (Hm1 & Hn1 & Hi1).
  destruct (reset (Some (arg_seed args + ep)) s) as [[e|[obs info]] s1] eqn:Hr;
    cbn [fst snd] in *.
  { erewrite run_bind_err by exact Hr. cbn [fst snd]. split; [exact Hm1|].
    intros a' [= ->]. apply (Hn1 a'). reflexivity. }
  erewrite run_bind_ok by exact Hr. cbn beta iota.
  specialize (Hi1 _ _ eq_refl).
  destruct (episode_steps_safe (arg_show_snapshot args) (Z.to_nat (arg_max_steps args))
              0 float_zero info rng out s1 Hm1 Hi1) as [Hm2 Hn2].
  destruct (episode_steps (arg_show_snapshot args) (Z.to_nat (arg_max_steps args))
              0 float_zero info rng out s1)
    as [[e|[[[[steps done] total] rng'] out']] s2] eqn:He; cbn [fst snd] in *.
  { erewrite run_bind_err by exact He. cbn [fst snd]. split; [exact Hm2|].
    intros a' [= ->]. apply (Hn2 a'). reflexivity. }
  erewrite run_bind_ok by exact He. cbn beta iota.
  apply IH. exact Hm2.
Qed.

(** X20. Whatever the arguments, the random draws and the worker do,
    [main] never raises the out-of-range-action error of [step]: each
    action it picks fits the mask it was picked from; and, by its
    [finally], it always leaves the environment closed. *)
Theorem main_never_invalid_action (args : Args) (rng : list nat) (w : World) :
  (forall a, fst (main args rng w) <> inl (InvalidAction a))
  /\ _proc (fst (snd (main args rng w))) = None.
Proof.
  unfold main, try_finally.
  set (s0 := (__init__ _ _ _ _ _, w)).
  assert (Hinit : mask_ok (fst s0)) by apply length_replicate.
  destruct (episodes_loop_safe args (Z.to_nat (arg_episodes args)) 0 rng [] s0 Hinit)
    as [_ Hn].
  destruct (episodes_loop args (Z.to_nat (arg_episodes args)) 0 rng [] s0)
    as [[e|[rng' out]] [e1 w1]] eqn:Hl; cbn [fst snd] in *.
  - erewrite run_bind_err by exact Hl. rewrite close_eq. cbn [fst snd].
    split; [|reflexivity]. intros a [= ->]. apply (Hn a). reflexivity.
  - erewrite run_bind_ok by exact Hl. unfold mret, M_ret, ret. rewrite close_eq.
    cbn [fst snd]. split; [discriminate|reflexivity].
Qed.

End DriverSafety.

(** ** What the driver spends *)

Section Emits.
Context `{Interp}.
Variable f : event -> bool.
Hypothesis f_get : forall t, f (EvGet t) = false.
Hypothesis f_kill : forall p, f (EvKill p) = false.

Lemma count_log ev w :
  count_events f (log ev w) = (count_events f w + (if f ev then 1 else 0))%nat.
Proof.
  unfold count_events, log. cbn [trace]. rewrite List.filter_app, length_app. cbn.
  destruct (f ev); reflexivity.
Qed.

Lemma emits_bind {A B} a b n (m : M A) (k : A -> M B) :
  emits_le f a m -> (forall x, emits_le f b (k x)) -> (a + b <= n)%nat ->
  emits_le f n (m ≫= k).
Proof.
  intros Hm Hk Hn s. unfold mbind, M_bind, bind.
  specialize (Hm s). destruct (m s) as [[e|x] s']; cbn [snd] in *; [lia|].
  specialize (Hk x s'). lia.
Qed.

Lemma emits_quiet {A} (m : M A) n :
  (forall s, trace (snd (snd (m s))) = trace (snd s)) -> emits_le f n m.
Proof. intros Hm s. unfold count_events. rewrite Hm. lia. Qed.

Lemma emits_close : emits_le f 0 close.
Proof.
  intros [e w]. rewrite close_eq. cbn [snd]. unfold count_events.
  rewrite close_world_trace, List.filter_app, length_app.
  unfold kill_events. destruct (_proc e); [|cbn; lia].
  destruct (hd PollAlive (poll_script w)); cbn; rewrite ?f_kill; cbn; lia.
Qed.

Lemma emits_write_json msg k :
  (forall pid, ((if f (EvWrite pid msg) then 1 else 0) <= k)%nat) ->
  emits_le f k (_write_json msg).
Proof.
  intros Hk [e w]. unfold _write_json. run. destruct (_proc e) as [pid|]; cbn; [|lia].
  destruct (hd true (write_script w)); cbn.
  - change (count_events f (log (EvWrite pid msg) (snd (next_write w)))
            <= count_events f w + k)%nat.
    rewrite count_log. specialize (Hk pid). unfold count_events in *. cbn. lia.
  - unfold count_events. cbn. lia.
Qed.

Lemma emits_read_json t : emits_le f 0 (_read_json t).
Proof.
  intros [e w]. unfold _read_json. run. destruct (_proc e); cbn; [|lia].
  destruct (hd ([], None) (queue_script w)) as [errs [line|]]; cbn;
    [destruct (json_loads line)|]; unfold count_events; cbn;
    rewrite List.filter_app, length_app; cbn; rewrite f_get; cbn; lia.
Qed.

Lemma emits_decode_step msg : emits_le f 0 (_decode_step msg).
Proof.
  apply emits_quiet. intros [e w]. unfold _decode_step. run.
  destruct (decode_obs msg); cbn; [reflexivity|].
  destruct (decode_mask msg); cbn; [reflexivity|].
  destruct (decode_reward msg); cbn; [reflexivity|].
  destruct (decode_done msg); reflexivity.
Qed.

Lemma emits_get_snapshot :
  (forall pid, f (EvWrite pid snapshot_cmd) = false) -> emits_le f 0 get_snapshot.
Proof.
  intros Hsnap. unfold get_snapshot.
  apply (emits_bind 0 0); [apply emits_quiet; reflexivity| |lia]. intros [pid|];
    [|apply emits_quiet; reflexivity].
  apply (emits_bind 0 0); [apply emits_write_json; intros p; rewrite Hsnap; lia| |lia].
  intros _. apply (emits_bind 0 0); [apply emits_read_json| |lia]. intros msg.
  apply (emits_bind 0 0); [apply emits_quiet; reflexivity| |lia]. intros snap.
  destruct snap; apply emits_quiet; reflexivity.
Qed.

Lemma emits_step a ks :
  (forall pid, ((if f (EvWrite pid (step_cmd a)) then 1 else 0) <= ks)%nat) ->
  emits_le f ks (step a).
Proof.
  intros Hks. unfold step.
  apply (emits_bind 0 ks); [apply emits_quiet; reflexivity| |lia]. intros [pid|];
    [|apply emits_quiet; reflexivity].
  destruct ((a <? 0) || (Z.of_nat ACTION_DIM <=? a)); [apply emits_quiet; reflexivity|].
  apply (emits_bind ks 0); [apply emits_write_json, Hks| |lia]. intros _.
  apply (emits_bind 0 0); [apply emits_read_json| |lia]. intros msg.
  apply (emits_bind 0 0); [apply emits_decode_step| |lia]. intros [[obs r] d].
  apply (emits_bind 0 0); [apply emits_quiet; reflexivity| |lia]. intros info.
  apply (emits_bind 0 0); [|intros _; apply emits_quiet; reflexivity|lia].
  destruct d; [apply emits_close|apply emits_quiet; reflexivity].
Qed.

Lemma emits_start seed :
  (forall pid argv dbg, f (EvPopen pid argv dbg) = false) ->
  (forall pid sd md sm st, f (EvWrite pid (hello_cmd sd md sm st)) = false) ->
  emits_le f 0 (_start seed).
Proof.
  intros Hpopen Hhello [e w]. unfold _start, _build_cmd, _write_json. run.
  assert (Hcount : forall argv,
    (count_events f
       (log (EvWrite (spawns w) (hello_cmd seed (mode e) (single_mode e) (seat e)))
          (snd (next_write (log (EvPopen (spawns w) argv (debug e)) (snd (next_popen w))))))
     <= count_events f w + 0)%nat).
  { intros argv. rewrite count_log, Hhello.
    change (count_events f (snd (next_write (log (EvPopen (spawns w) argv (debug e))
              (snd (next_popen w))))))
      with (count_events f (log (EvPopen (spawns w) argv (debug e)) (snd (next_popen w)))).
    rewrite count_log, Hpopen. unfold count_events. cbn. lia. }
  assert (Hpop : forall argv,
    (count_events f (snd (next_write (log (EvPopen (spawns w) argv (debug e))
              (snd (next_popen w))))) <= count_events f w + 0)%nat).
  { intros argv.
    change (count_events f (snd (next_write (log (EvPopen (spawns w) argv (debug e))
              (snd (next_popen w))))))
      with (count_events f (log (EvPopen (spawns w) argv (debug e)) (snd (next_popen w)))).
    rewrite count_log, Hpopen. unfold count_events. cbn. lia. }
  destruct (which_pnpm (host w)); cbn.
  - destruct (hd true (popen_script w)); cbn; [|unfold count_events; cbn; lia].
    destruct (hd true (write_script w)); cbn; [apply Hcount|apply Hpop].
  - destruct (loader_exists (host w)); cbn; [|lia].
    destruct (which_node (host w)); cbn; [|lia].
    destruct (hd true (popen_script w)); cbn; [|unfold count_events; cbn; lia].
    destruct (hd true (write_script w)); cbn; [apply Hcount|apply Hpop].
Qed.

Lemma emits_reset_quiet seed :
  (forall pid argv dbg, f (EvPopen pid argv dbg) = false) ->
  (forall pid sd md sm st, f (EvWrite pid (hello_cmd sd md sm st)) = false) ->
  emits_le f 0 (reset seed).
Proof.
  intros Hpopen Hhello.
  assert (Ha : forall sd, emits_le f 0 (reset_attempt sd)).
  { intros sd. unfold reset_attempt.
    apply (emits_bind 0 0); [apply emits_close| |lia]. intros _.
    apply (emits_bind 0 0); [apply emits_quiet; reflexivity| |lia]. intros _.
    apply (emits_bind 0 0); [apply emits_start; assumption| |lia]. intros _.
    apply (emits_bind 0 0); [apply emits_read_json| |lia]. intros msg.
    apply emits_decode_step. }
  intros s. rewrite reset_unfold. cbv zeta.
  pose proof (Ha (default (base_seed (fst s)) seed) s) as H1.
  destruct (reset_attempt _ s) as [[x|[[obs r] d]] s1]; cbn [snd reset_result] in *; [lia|].
  destruct d; cbn [snd] in *; [|lia].
  pose proof (Ha (default (base_seed (fst s)) seed + 1) s1) as H2.
  destruct (reset_attempt _ s1) as [[x|[[obs' r'] d']] s2]; cbn [snd reset_result] in *; lia.
Qed.

Variable ks kr : nat.
Hypothesis f_snapshot : forall pid, f (EvWrite pid snapshot_cmd) = false.
Hypothesis f_step : forall pid a, ((if f (EvWrite pid (step_cmd a)) then 1 else 0) <= ks)%nat.
Hypothesis f_reset : forall seed, emits_le f kr (reset seed).

Lemma emits_episode_steps show fuel steps total info rng out :
  emits_le f (fuel * ks) (episode_steps show fuel steps total info rng out).
Proof.
  revert steps total info rng out.
  induction fuel as [|fuel IH]; intros steps total info rng out.
  { apply emits_quiet. reflexivity. }
  cbn [episode_steps]. cbv zeta.
  apply (emits_bind ks (fuel * ks)); [apply emits_step; intros pid; apply f_step| |lia].
  intros [[[[obs r] t] tr] info'].
  apply (emits_bind 0 (fuel * ks)); [| |lia].
  - destruct (show && (steps =? 0)); [|apply emits_quiet; reflexivity].
    apply (emits_bind 0 0); [apply emits_get_snapshot, f_snapshot| |lia]. intros snap.
    apply (emits_bind 0 0); [apply emits_quiet; reflexivity| |lia]. intros line.
    apply emits_quiet. reflexivity.
  - intros out'. destruct (t || tr); [apply emits_quiet; reflexivity|apply IH].
Qed.

Lemma emits_episodes_loop args n ep rng out :
  emits_le f (n * (kr + Z.to_nat (arg_max_steps args) * ks))
    (episodes_loop args n ep rng out).
Proof.
  revert ep rng out. induction n as [|n IH]; intros ep rng out.
  { apply emits_quiet. reflexivity. }
  cbn [episodes_loop].
  apply (emits_bind kr (Z.to_nat (arg_max_steps args) * ks
                        + n * (kr + Z.to_nat (arg_max_steps args) * ks)));
    [apply f_reset| |lia].
  intros [obs info].
  apply (emits_bind (Z.to_nat (arg_max_steps args) * ks)
                    (n * (kr + Z.to_nat (arg_max_steps args) * ks)));
    [apply emits_episode_steps| |lia].
  intros [[[[steps done] total] rng'] out']. apply IH.
Qed.

Lemma emits_main args rng w :
  (count_events f (snd (snd (main args rng w)))
   <= count_events f w
      + Z.to_nat (arg_episodes args) * (kr + Z.to_nat (arg_max_steps args) * ks))%nat.
Proof.
  unfold main, try_finally.
  set (s0 := (__init__ _ _ _ _ _, w)).
  assert (Hl : emits_le f
            (Z.to_nat (arg_episodes args) * (kr + Z.to_nat (arg_max_steps args) * ks))
            (r ← episodes_loop args (Z.to_nat (arg_episodes args)) 0 rng []; mret (snd r))).
  { eapply (emits_bind _ 0); [apply emits_episodes_loop| |lia].
    intros r. apply emits_quiet. reflexivity. }
  specialize (Hl s0). change (snd s0) with w in Hl.
  destruct ((r ← episodes_loop args (Z.to_nat (arg_episodes args)) 0 rng []; mret (snd r)) s0)
    as [res s1].
  pose proof (emits_close s1) as Hc. destruct (close s1) as [[e|[]] s2]; cbn [snd] in *; lia.
Qed.

End Emits.

Section Budget.
Context `{Interp}.

Lemma hello_is_no_step pid sd md sm st :
  is_step_write (EvWrite pid (hello_cmd sd md sm st)) = false.
Proof. unfold is_step_write, hello_cmd. rewrite lookup_insert_eq. reflexivity. Qed.

Lemma step_cmd_is_step pid a : is_step_write (EvWrite pid (step_cmd a)) = true.
Proof. unfold is_step_write, step_cmd. rewrite lookup_insert_eq. reflexivity. Qed.

(** X21. [main] spawns at most two workers per episode and writes at
    most [max_steps] step commands per episode, whatever the worker
    answers (a negative [--episodes] or [--max-steps] counts as none). *)
Theorem main_budget (args : Args) (rng : list nat) (w : World) :
  let w' := snd (snd (main args rng w)) in
  (spawns w' <= spawns w + 2 * Z.to_nat (arg_episodes args))%nat
  /\ (count_events is_step_write w'
      <= count_events is_step_write w
         + Z.to_nat (arg_episodes args) * Z.to_nat (arg_max_steps args))%nat.
Proof.
  cbv zeta. split.
  - pose proof (emits_main is_popen (fun _ => eq_refl) (fun _ => eq_refl) 0 2
                  (fun _ => eq_refl) (fun _ _ => le_n 0) reset_spawns args rng w) as Hm.
    unfold spawns. unfold count_events in Hm. lia.
  - assert (Hstep : forall pid a,
              ((if is_step_write (EvWrite pid (step_cmd a)) then 1 else 0) <= 1)%nat)
      by (intros pid a; rewrite step_cmd_is_step; lia).
    assert (Hreset : forall seed, emits_le is_step_write 0 (reset seed)).
    { intros seed. apply emits_reset_quiet; [reflexivity|reflexivity|reflexivity|].
      apply hello_is_no_step. }
    pose proof (emits_main is_step_write (fun _ => eq_refl) (fun _ => eq_refl) 1 0
                  (fun _ => eq_refl) Hstep Hreset args rng w) as Hm.
    lia.
Qed.

End Budget.

Section FirstStep.
Context `{Interp}.

Lemma step_terminated_closed a s obs r tr info s' :
  step a s = (inr (obs, r, true, tr, info), s') -> _proc (fst s') = None.
Proof.
  unfold step. run. destruct (_proc (fst s)); [|discriminate].
  destruct ((a <? 0) || (Z.of_nat ACTION_DIM <=? a)); [discriminate|].
  destruct (_write_json (step_cmd a) s) as [[x|[]] s1]; [discriminate|].
  destruct (_read_json 40 s1) as [[x|msg] s2]; [discriminate|].
  destruct (_decode_step msg s2) as [[x|[[obs' r'] d]] [e3 w3]]; [discriminate|].
  cbn [fst snd]. destruct d; [|discriminate].
  rewrite close_eq. intros [= _ _ _ _ <-]. reflexivity.
Qed.

(** X22. When the first step of an episode is terminal, the episode
    loop without [--show-snapshot] ends with one step counted,
    [done = true] and that step's reward added to 0.0; with
    [--show-snapshot] it asks the already closed environment for a
    snapshot and raises the environment-is-closed error instead. *)
Theorem first_step_terminal (fuel : nat) (info : list bool) (rng : list nat)
    (out : list printed) (s s' : St) obs r tr info' :
  step (pick_action (hd 0%nat rng) info) s = (inr (obs, r, true, tr, info'), s') ->
  episode_steps false (S fuel) 0 float_zero info rng out s
  = (inr (1, true, SFadd f64_prec f64_emax float_zero r,
          if (0 <? length (flatnonzero info))%nat then tail rng else rng, out), s')
  /\ episode_steps true (S fuel) 0 float_zero info rng out s
     = (inl (NotRunning closed_msg), s').
Proof.
  intros Hst. split; cbn [episode_steps]; cbv zeta.
  - erewrite run_bind_ok by exact Hst. cbn. reflexivity.
  - erewrite run_bind_ok by exact Hst. cbn beta iota.
    change (true && (0 =? 0)) with true. cbn iota.
    apply step_terminated_closed in Hst.
    erewrite run_bind_err; [reflexivity|].
    erewrite run_bind_err; [reflexivity|]. apply get_snapshot_closed, Hst.
Qed.

End FirstStep.

(** ** Further scenarios on the stub worker *)

Section MoreScenarios.
#[local] Existing Instance stub_interp.

Lemma drain_stderr_tail_witness :
  (length (_drain_stderr [(false, line_of "warn")] []) <= 120)%nat
  /\ _drain_stderr ([(false, line_of "warn")] ++ (false, EmptyString) :: [(false, line_of "late")]) []
     = _drain_stderr [(false, line_of "warn")] [].
Proof.
  destruct (drain_stderr_tail [(false, line_of "warn")] [(false, line_of "late")] []
              false EmptyString) as (_ & Hlen & Hend).
  - cbn. lia.
  - split; [exact Hlen|]. apply Hend. right. reflexivity.
Defined.

Lemma pick_action_valid_witness :
  0 <= pick_action 7 first_legal_mask < Z.of_nat ACTION_DIM
  /\ first_legal_mask !! Z.to_nat (pick_action 7 first_legal_mask) = Some true.
Proof.
  destruct (pick_action_valid 7 first_legal_mask) as (Hr & Hl & _).
  - reflexivity.
  - split; [exact Hr|]. apply Hl. exists 0%nat. reflexivity.
Defined.

Lemma reset_first_response_witness :
  exists s',
    reset None (stub_env, stub_world [stub_line])
    = (inr (stub_obs ++ replicate 99 f32_zero, [true; false] ++ replicate 58 false), s')
    /\ _proc (fst s') = Some 0%nat
    /\ _episode_seed (fst s') = 123.
Proof.
  destruct (reset_first_response None stub_env (stub_world [stub_line]) (JObj stub_kvs)
              (stub_obs ++ replicate 99 f32_zero) ([true; false] ++ replicate 58 false)
              float_zero)
    as (s' & Hr & Hp & Hs & _).
  - split; [left; exists "pnpm"; reflexivity|reflexivity].
  - split; [reflexivity|]. exists [], stub_line. split; reflexivity.
  - vm_compute. reflexivity.
  - vm_compute. reflexivity.
  - vm_compute. reflexivity.
  - vm_compute. reflexivity.
  - exists s'. split; [exact Hr|]. split; [exact Hp|exact Hs].
Defined.

Lemma reset_launch_unavailable_witness :
  exists m,
    reset (Some 5) (stub_env, bare_world)
    = (inl (LaunchUnavailable m), (set_episode_seed 5 (closed_env stub_env), bare_world)).
Proof.
  destruct (reset_launch_unavailable (Some 5) stub_env bare_world) as (m & Hr).
  - split; [reflexivity|right; reflexivity].
  - exists m. exact Hr.
Defined.

Lemma reset_timeout_witness :
  exists s',
    fst (reset (Some 5) (stub_env, stub_world [])) = inl (Timeout [])
    /\ snd (reset (Some 5) (stub_env, stub_world [])) = s'
    /\ _proc (fst s') = Some 0%nat.
Proof.
  destruct (reset_timeout (Some 5) stub_env (stub_world []) [])
    as (s' & argv & Hr & Hp & _).
  - split; [left; exists "pnpm"; reflexivity|reflexivity].
  - reflexivity.
  - reflexivity.
  - exists s'. rewrite Hr. split; [reflexivity|]. split; [reflexivity|exact Hp].
Defined.

Lemma step_outcome_witness :
  exists s',
    step 3 (running_env, stub_world [stub_line])
    = (inr (stub_obs ++ replicate 99 f32_zero, float_zero, false, false,
            [true; false] ++ replicate 58 false), s')
    /\ _proc (fst s') = Some 0%nat.
Proof.
  destruct (step_outcome 3 running_env (stub_world [stub_line]) 0%nat (JObj stub_kvs)
              (stub_obs ++ replicate 99 f32_zero) ([true; false] ++ replicate 58 false)
              float_zero false)
    as (s' & Hs & _ & Hp & _).
  - reflexivity.
  - vm_compute. split; [discriminate|reflexivity].
  - split; [reflexivity|]. exists [], stub_line. split; reflexivity.
  - vm_compute. reflexivity.
  - vm_compute. reflexivity.
  - vm_compute. reflexivity.
  - vm_compute. reflexivity.
  - exists s'. split; [exact Hs|exact Hp].
Defined.

Lemma step_timeout_witness :
  exists s',
    step 3 (running_env, stub_world []) = (inl (Timeout []), s')
    /\ _proc (fst s') = Some 0%nat.
Proof.
  destruct (step_timeout 3 running_env (stub_world []) 0%nat []) as (s' & Hs & Hp & _).
  - reflexivity.
  - vm_compute. split; [discriminate|reflexivity].
  - reflexivity.
  - reflexivity.
  - exists s'. split; [exact Hs|exact Hp].
Defined.

Lemma step_write_failure_witness :
  exists w',
    step 3 (running_env, broken_pipe_world) = (inl OSError, (running_env, w'))
    /\ trace w' = [].
Proof.
  destruct (step_write_failure 3 running_env broken_pipe_world 0%nat) as (w' & Hs & Ht & _).
  - reflexivity.
  - vm_compute. split; [discriminate|reflexivity].
  - reflexivity.
  - exists w'. split; [exact Hs|exact Ht].
Defined.

Lemma no_io_before_reset_witness :
  snd (run_calls [CallStep 3; CallClose; CallGetSnapshot]
         (__init__ "single" "normal" 0 123 false, stub_world [stub_line]))
  = stub_world [stub_line].
Proof.
  apply (no_io_before_reset "single" "normal" 0 123 false (stub_world [stub_line])
           [CallStep 3; CallClose; CallGetSnapshot]).
  reflexivity.
Defined.


Lemma decode_obs_rows_witness :
  decode_obs (JObj matrix_kvs)
  = inr (take OBS_DIM [S754_finite false 8388608 (-23); S754_finite false 8388608 (-22);
                       S754_finite false 12582912 (-22); S754_finite false 8388608 (-23)]
         ++ replicate (OBS_DIM - 4) f32_zero)
  /\ decode_obs (JObj ragged_kvs) = inl ValueError.
Proof.
  split.
  - apply (decode_obs_rows matrix_kvs [JInt 1; JInt 2] [[JInt 3; JInt 1]] 2).
    + vm_compute. reflexivity.
    + reflexivity.
    + reflexivity.
    + repeat constructor.
    + vm_compute. reflexivity.
  - apply (decode_obs_rows ragged_kvs [JInt 1; JInt 2] [[JInt 3]] 2).
    + vm_compute. reflexivity.
    + reflexivity.
    + reflexivity.
    + exists [JInt 3]. split; [left; reflexivity|]. split; [reflexivity|]. cbn. lia.
Defined.

Lemma first_step_terminal_witness :
  fst (episode_steps true 5 0 float_zero (replicate ACTION_DIM false) [] []
         (running_env, stub_world [done_line]))
  = inl (NotRunning closed_msg).
Proof.
  destruct (first_step_terminal 4 (replicate ACTION_DIM false) [] []
              (running_env, stub_world [done_line])
              (snd (step 59 (running_env, stub_world [done_line])))
              (replicate OBS_DIM f32_zero) float_zero false (replicate ACTION_DIM false))
    as [_ Hshow].
  - vm_compute. reflexivity.
  - rewrite Hshow. reflexivity.
Defined.

End MoreScenarios.

Section BadResponses.
#[local] Existing Instance stub_interp2.

Lemma step_decode_failure_witness :
  (exists s', step 3 (running_env, stub_world [list_line]) = (inl AttributeError, s')
     /\ _last_mask (fst s') = _last_mask running_env)
  /\ (exists s', step 3 (running_env, stub_world [bad_reward_line]) = (inl TypeError, s')
     /\ _last_mask (fst s') = true :: replicate 59 false).
Proof.
  split.
  - destruct (step_decode_failure 3 running_env (stub_world [list_line]) 0%nat (JArr []))
      as (Hobs & _ & _).
    + reflexivity.
    + vm_compute. split; [discriminate|reflexivity].
    + split; [reflexivity|]. exists [], list_line. split; reflexivity.
    + destruct (Hobs AttributeError eq_refl) as (s' & Hs & _ & Hm).
      exists s'. split; [exact Hs|exact Hm].
  - destruct (step_decode_failure 3 running_env (stub_world [bad_reward_line]) 0%nat
                (JObj bad_reward_kvs)) as (_ & _ & Hrew).
    + reflexivity.
    + vm_compute. split; [discriminate|reflexivity].
    + split; [reflexivity|]. exists [], bad_reward_line. split; reflexivity.
    + destruct (Hrew (replicate OBS_DIM f32_zero) (true :: replicate 59 false) TypeError)
        as (s' & Hs & _ & Hm); try (vm_compute; reflexivity).
      exists s'. split; [exact Hs|exact Hm].
Defined.

Lemma decode_step_raises_only_witness :
  decode_exn AttributeError
  /\ snd (snd (_decode_step (JArr []) (running_env, stub_world []))) = stub_world [].
Proof.
  destruct (decode_step_raises_only (JArr []) (running_env, stub_world []) AttributeError)
    as (He & _ & Hw).
  - reflexivity.
  - split; [exact He|exact Hw].
Defined.

End BadResponses.
